(** * ThreatShield: attack-tree layout, diagram export and risk scores

    A shallow embedding of code of the ThreatShield front end:

    - [AttackTree.tsx]: the envelope handling of [fetchData] and the layout
      of [processAttackTreeData] ([createNodes], [createEdges]);
    - [Dread.tsx], report view: the layout of [AttackTreeVisualization],
      the text export [generateSimplifiedMermaidDiagram] ([processNode])
      and the loading of the report ([fetchReportData]);
    - [Dread.tsx], DREAD page: [getDreadItems], [calculateRiskScore],
      [getRiskLevel] and the risk distribution.

    Numbers.  The coordinates of the layout are exact rationals ([Q]): a
    coordinate is stated as the value of the expression the source
    evaluates; the rounding of that expression is not modelled.
    Integer quantities of the source (levels, indices, sibling counts)
    are [nat] and enter that arithmetic through [num].  The ratings and
    scores of the DREAD page, where rounding and NaN decide the outcome,
    are IEEE 754 doubles ([JsNumber]). *)

From Stdlib Require Import QArith Qminmax SpecFloat.
From stdpp Require Import gmap strings list fin_maps sets.

Local Open Scope string_scope.
Local Open Scope list_scope.
Local Set Warnings "-register-all,-clear-no-such-hyp".

(** ** Shared types ([types/reportTypes.ts]) *)

(** [interface AttackTreeNode { id; type; label; children? }].  The [type]
    field is a string at run time; [None] stands for a missing field. *)
Inductive AttackTreeNode : Type :=
  mkNode {
    id : string;
    type : option string;
    label : string;
    children : option (list AttackTreeNode)
  }.

(** The children the [forEach] loops iterate over: a missing or empty
    [children] array yields no iteration. *)
Definition kids (n : AttackTreeNode) : list AttackTreeNode :=
  match children n with Some cs => cs | None => [] end.

(** [subtrees n]: the node and all its descendants, in preorder. *)
Fixpoint subtrees (n : AttackTreeNode) : list AttackTreeNode :=
  n :: match children n with
       | Some cs => (fix go (l : list AttackTreeNode) : list AttackTreeNode :=
                       match l with
                       | [] => []
                       | c :: r => subtrees c ++ go r
                       end) cs
       | None => []
       end.

(** Number of nodes of a tree. *)
Definition tree_size (n : AttackTreeNode) : nat := length (subtrees n).

(** [treeNodes.find(node => node.type === 'goal')] *)
Definition is_goal (n : AttackTreeNode) : bool :=
  bool_decide (type n = Some "goal").

(** [a || b] where [a] is a possibly missing string: the empty string and
    a missing value are falsy. *)
Definition str_or (a : option string) (b : string) : string :=
  match a with
  | Some s => if bool_decide (s = EmptyString) then b else s
  | None => b
  end.

(** ** Numbers *)

Definition num (n : nat) : Q := inject_Z (Z.of_nat n).

(** ** Layout output records (the fields the code computes; the literal
    style and marker constants attached to every node and edge are left
    out) *)

Record Position := mkPosition { x : Q; y : Q }.

Record FlowNode := mkFlowNode {
  fn_id : string;
  fn_type : string;
  fn_position : Position;
  data_label : string
}.

Record FlowEdge := mkFlowEdge {
  edge_id : string;
  source : string;
  target : string
}.

(** The spacing configuration object literal. *)
Record LevelConfig := mkLevelConfig { xGapMultiplier : Q; siblingFactor : Q }.

Record SpacingConfig := mkSpacingConfig {
  baseWidth : Q;
  level0_xGap : Q;
  level1 : LevelConfig;
  level2 : LevelConfig;
  verticalBase : Q;
  verticalIncrement : Q;
  horizontalOffset : Q
}.

(** [obj[key] = value] on an object created by the literal [{}], for a
    [value] that is itself an object.  The key [__proto__] names the
    accessor of [Object.prototype]: the assignment under it replaces the
    prototype of [obj] and creates no property.  Under every other key the
    assignment creates or overwrites an own property of [obj].  The map
    holds the own properties. *)
Definition assign {A : Type} (key : string) (value : A) (obj : gmap string A)
    : gmap string A :=
  if bool_decide (key = "__proto__") then obj else <[key := value]> obj.

(** The accumulators captured by the closures [createNodes] and
    [createEdges]: the array [flowNodes] and the own properties of the
    object [nodePositions] (which the code writes and never reads). *)
Record LayoutAcc := mkLayoutAcc {
  flowNodes : list FlowNode;
  nodePositions : gmap string Position
}.

Definition emptyAcc : LayoutAcc := mkLayoutAcc [] ∅.

(** What the component hands to ReactFlow: the [nodes] and [edges] state. *)
Record ViewState := mkViewState {
  nodes : list FlowNode;
  edges : list FlowEdge
}.

(** ** [createEdges] (identical in [AttackTree.tsx] and [Dread.tsx]) *)

(** One [flowEdges.push] per child of every node, followed by the recursive
    call on that child; [flowEdges] is threaded explicitly. *)
Fixpoint createEdges (node : AttackTreeNode) (flowEdges : list FlowEdge) : list FlowEdge :=
  match children node with
  | Some cs =>
      (fix forEach (l : list AttackTreeNode) (acc : list FlowEdge) : list FlowEdge :=
         match l with
         | [] => acc
         | childNode :: r =>
             forEach r
               (createEdges childNode
                  (acc ++ [mkFlowEdge (id node +:+ "-" +:+ id childNode)
                                      (id node) (id childNode)]))
         end) cs flowEdges
  | None => flowEdges
  end.

(** ** The Attack Tree page ([AttackTree.tsx]) *)

Module AttackTreePage.

Local Open Scope Q_scope.

Section Layout.

Variable config : SpacingConfig.

(** [createNodes(node, level, position, totalSiblings, parentX)]; the
    accumulators [flowNodes] and [nodePositions] are threaded through
    [LayoutAcc]. *)
Fixpoint createNodes (node : AttackTreeNode) (level position totalSiblings : nat)
    (parentX : Q) (acc : LayoutAcc) : LayoutAcc :=
  let baseWidth := baseWidth config in
  let xGap : Q :=
    match level with
    | O => 0
    | S O => baseWidth * xGapMultiplier (level1 config)
             * Qmax 1 (num totalSiblings * siblingFactor (level1 config))
    | _ => baseWidth * xGapMultiplier (level2 config)
           * Qmax 1 (num totalSiblings * siblingFactor (level2 config))
    end in
  let yGap : Q := verticalBase config + (num level * verticalIncrement config) in
  let y : Q := num level * yGap in
  let x : Q :=
    match level with
    | O => 0
    | S O =>
        let totalWidth := xGap * (num totalSiblings - 1) in
        let startX := (- totalWidth) / 2 in
        startX + (num position * xGap)
    | _ =>
        let childOffset := ((num totalSiblings - 1) * xGap) / 2 in
        let x0 := parentX - childOffset + (num position * xGap) in
        let offsetMultiplier := num position - (num totalSiblings - 1) / 2 in
        x0 + offsetMultiplier * horizontalOffset config
    end in
  let acc1 :=
    mkLayoutAcc
      (flowNodes acc ++
         [mkFlowNode (id node) (str_or (type node) "goal") (mkPosition x y) (label node)])
      (assign (id node) (mkPosition x y) (nodePositions acc)) in
  match children node with
  | Some cs =>
      (fix forEach (l : list AttackTreeNode) (idx : nat) (a : LayoutAcc) : LayoutAcc :=
         match l with
         | [] => a
         | childNode :: r =>
             forEach r (S idx)
               (createNodes childNode (S level) idx (length cs) x a)
         end) cs O acc1
  | None => acc1
  end.

(** The two passes run on a root: the lists [flowNodes] and [flowEdges]
    as they stand after [createEdges(rootNode)]. *)
Definition layoutOf (rootNode : AttackTreeNode) : list FlowNode * list FlowEdge :=
  (flowNodes (createNodes rootNode 0 0 1 0 emptyAcc), createEdges rootNode []).

End Layout.

(** [const config = { baseWidth: 250, ... }] *)
Definition config : SpacingConfig :=
  mkSpacingConfig 250 0 (mkLevelConfig 1.8 0.5) (mkLevelConfig 1.0 0.6) 160 25 15.

(** [processAttackTreeData(treeNodes)]: the root is [treeNodes[0]]; the
    result is published with [setNodes]/[setEdges] only when both lists are
    non-empty, otherwise the view keeps its state. *)
Definition processAttackTreeData (treeNodes : list AttackTreeNode) (view : ViewState)
    : ViewState :=
  match head treeNodes with
  | Some rootNode =>
      let '(flowNodes, flowEdges) := layoutOf config rootNode in
      if (0 <? length flowNodes)%nat && (0 <? length flowEdges)%nat
      then mkViewState flowNodes flowEdges
      else view
  | None => view
  end.

End AttackTreePage.

(** ** The report view ([Dread.tsx]) *)

Module ReportView.

Local Open Scope Q_scope.

Section Layout.

Variable spacingConfig : SpacingConfig.

(** [createNodes] of [AttackTreeVisualization].  Levels 0, 1 and 2 read the
    configuration; from level 3 on the literals [1.2] and [0.4] are used
    (the two level tests inside that branch can never succeed there), and
    the lateral offset is the literal [15]. *)
Fixpoint createNodes (node : AttackTreeNode) (level position totalSiblings : nat)
    (parentX : Q) (acc : LayoutAcc) : LayoutAcc :=
  let cfg := spacingConfig in
  let baseWidth := baseWidth cfg in
  let xGap : Q :=
    match level with
    | O => 0
    | S O => baseWidth * xGapMultiplier (level1 cfg)
             * Qmax 1 (num totalSiblings * siblingFactor (level1 cfg))
    | S (S O) => baseWidth * xGapMultiplier (level2 cfg)
                 * Qmax 1 (num totalSiblings * siblingFactor (level2 cfg))
    | _ =>
        let xGapMultiplier := 1.2 in
        let siblingFactor := 0.4 in
        baseWidth * xGapMultiplier * Qmax 1 (num totalSiblings * siblingFactor)
    end in
  let yGap : Q := verticalBase cfg + (num level * verticalIncrement cfg) in
  let y : Q := num level * yGap in
  let x : Q :=
    match level with
    | O => 0
    | S O =>
        let totalWidth := xGap * (num totalSiblings - 1) in
        let startX := (- totalWidth) / 2 in
        startX + (num position * xGap)
    | _ =>
        let childOffset := ((num totalSiblings - 1) * xGap) / 2 in
        let x0 := parentX - childOffset + (num position * xGap) in
        let offsetMultiplier := num position - (num totalSiblings - 1) / 2 in
        x0 + offsetMultiplier * 15
    end in
  let acc1 :=
    mkLayoutAcc
      (flowNodes acc ++
         [mkFlowNode (id node) (str_or (type node) "goal") (mkPosition x y) (label node)])
      (assign (id node) (mkPosition x y) (nodePositions acc)) in
  match children node with
  | Some cs =>
      (fix forEach (l : list AttackTreeNode) (idx : nat) (a : LayoutAcc) : LayoutAcc :=
         match l with
         | [] => a
         | childNode :: r =>
             forEach r (S idx)
               (createNodes childNode (S level) idx (length cs) x a)
         end) cs O acc1
  | None => acc1
  end.

Definition layoutOf (rootNode : AttackTreeNode) : list FlowNode * list FlowEdge :=
  (flowNodes (createNodes rootNode 0 0 1 0 emptyAcc), createEdges rootNode []).

End Layout.

Definition spacingConfig : SpacingConfig :=
  mkSpacingConfig 250 0 (mkLevelConfig 1.8 0.5) (mkLevelConfig 1.0 0.6) 160 25 15.

(** [treeNodes.find(node => node.type === 'goal') || treeNodes[0]] *)
Definition rootOf (treeNodes : list AttackTreeNode) : option AttackTreeNode :=
  match find is_goal treeNodes with
  | Some n => Some n
  | None => head treeNodes
  end.

(** [processAttackTreeData] of [AttackTreeVisualization]: [setNodes] and
    [setEdges] are called whenever a root exists. *)
Definition processAttackTreeData (treeNodes : list AttackTreeNode) (view : ViewState)
    : ViewState :=
  match rootOf treeNodes with
  | Some rootNode =>
      let '(flowNodes, flowEdges) := layoutOf spacingConfig rootNode in
      mkViewState flowNodes flowEdges
  | None => view
  end.

End ReportView.

(** ** The diagram export ([generateSimplifiedMermaidDiagram], [Dread.tsx])

    The exporter is the one traversal that is written to survive node
    objects that are shared or that lie on a reference cycle, so its input
    is modelled as an object store: a node object sits at a location and
    its [children] array holds locations. *)

Module Exporter.

Definition loc := nat.

(** A node object in the store. *)
Record NodeObj := mkNodeObj {
  o_id : string;
  o_type : option string;
  o_label : string;
  o_children : option (list loc)
}.

Abbreviation heap := (gmap loc NodeObj).

(** Results of a run: a value, a [TypeError] raised by reading a property
    of something that is not an object, or exhaustion of the recursion
    budget of the model. *)
Inductive outcome (A : Type) : Type :=
| Done (a : A)
| Throw
| OutOfFuel.
Arguments Done {A} a.
Arguments Throw {A}.
Arguments OutOfFuel {A}.

#[global] Instance outcome_bind : MBind outcome := fun A B k m =>
  match m with
  | Done a => k a
  | Throw => Throw
  | OutOfFuel => OutOfFuel
  end.

(** Reading through a reference. *)
Definition deref (h : heap) (l : loc) : outcome NodeObj :=
  match h !! l with
  | Some o => Done o
  | None => Throw
  end.

(** The statements appended to [mermaidContent]. *)
Inductive Stmt : Type :=
| Decl (nid : string) (text : string)
| Arrow (src : string) (tgt : string).

Definition dquote : Ascii.ascii := Ascii.ascii_of_nat 34.
Definition squote : Ascii.ascii := Ascii.ascii_of_nat 39.
Definition newline : string := String (Ascii.ascii_of_nat 10) EmptyString.

(** The [replace] applied to a label: every double-quote character
    becomes a single-quote character. *)
Fixpoint escapeLabel (s : string) : string :=
  match s with
  | EmptyString => EmptyString
  | String c r =>
      String (if Ascii.eqb c dquote then squote else c) (escapeLabel r)
  end.

(** The text of one statement, as the template literals build it. *)
Definition renderStmt (s : Stmt) : string :=
  match s with
  | Decl nid text =>
      "    " +:+ nid +:+ "[" +:+ String dquote text +:+ String dquote "]" +:+ newline
  | Arrow src tgt =>
      "    " +:+ src +:+ " --> " +:+ tgt +:+ newline
  end.

(** [mermaidContent] is only ever appended to: it is kept as the list of
    statements appended so far and turned into text by [render]. *)
Definition render (stmts : list Stmt) : string :=
  "graph TD" +:+ newline +:+ String.concat EmptyString (map renderStmt stmts).

Record ExportState := mkExportState {
  mermaidContent : list Stmt;
  processedNodeIds : gset string
}.

Definition initialState : ExportState := mkExportState [] ∅.

(** [processNode(node)].  [fuel] bounds the depth of nested calls. *)
Fixpoint processNode (fuel : nat) (h : heap) (node : loc) (st : ExportState)
    : outcome ExportState :=
  match fuel with
  | O => OutOfFuel
  | S fuel' =>
      o ← deref h node ;
      if bool_decide (o_id o ∈ processedNodeIds st) then Done st
      else
        let st1 :=
          mkExportState
            (mermaidContent st ++ [Decl (o_id o) (escapeLabel (o_label o))])
            ({[o_id o]} ∪ processedNodeIds st) in
        match o_children o with
        | Some cs =>
            (fix forEach (l : list loc) (s : ExportState) : outcome ExportState :=
               match l with
               | [] => Done s
               | child :: r =>
                   c ← deref h child ;
                   s' ← processNode fuel' h child
                          (mkExportState
                             (mermaidContent s ++ [Arrow (o_id o) (o_id c)])
                             (processedNodeIds s)) ;
                   forEach r s'
               end) cs st1
        | None => Done st1
        end
  end.

(** [nodes.find(node => node.type === 'goal')] over references. *)
Fixpoint findGoal (h : heap) (nodes : list loc) : outcome (option loc) :=
  match nodes with
  | [] => Done None
  | n :: r =>
      o ← deref h n ;
      if bool_decide (o_type o = Some "goal") then Done (Some n) else findGoal h r
  end.

(** [nodes.find(...) || nodes[0]] *)
Definition rootOf (h : heap) (nodes : list loc) : outcome (option loc) :=
  g ← findGoal h nodes ;
  match g with
  | Some n => Done (Some n)
  | None => Done (head nodes)
  end.

(** The statements of the diagram, before rendering. *)
Definition exportStmts (fuel : nat) (h : heap) (nodes : list loc) : outcome (list Stmt) :=
  r ← rootOf h nodes ;
  match r with
  | Some rootNode =>
      st ← processNode fuel h rootNode initialState ;
      Done (mermaidContent st)
  | None => Done (mermaidContent initialState)
  end.

Definition generateSimplifiedMermaidDiagram (fuel : nat) (h : heap) (nodes : list loc)
    : outcome string :=
  stmts ← exportStmts fuel h nodes ;
  Done (render stmts).

(** Every reference held by the entry list or by a [children] array points
    to a node object. *)
Definition closed (h : heap) (nodes : list loc) : Prop :=
  Forall (fun l => is_Some (h !! l)) nodes /\
  map_Forall (fun _ o => Forall (fun l => is_Some (h !! l)) (default [] (o_children o))) h.

#[global] Instance closed_dec (h : heap) (nodes : list loc) : Decision (closed h nodes) :=
  ltac:(unfold closed; apply _).

(** The ids carried by the objects of the store. *)
Definition heapIds (h : heap) : gset string :=
  list_to_set ((fun p => o_id p.2) <$> map_to_list h).

(** No two objects of the store carry the same id. *)
Definition uniqueIds (h : heap) : Prop :=
  NoDup ((fun p => o_id p.2) <$> map_to_list h).

#[global] Instance uniqueIds_dec (h : heap) : Decision (uniqueIds h) :=
  ltac:(unfold uniqueIds; apply _).

(** The same store with the [type] field of every object rewritten. *)
Definition retype (f : NodeObj -> option string) (o : NodeObj) : NodeObj :=
  mkNodeObj (o_id o) (f o) (o_label o) (o_children o).

(** A recursion budget that suffices for every closed store. *)
Definition enoughFuel (h : heap) : nat := S (size (heapIds h)).

(** The entries of the [children] array the [forEach] runs over. *)
Definition okids (o : NodeObj) : list loc := default [] (o_children o).

(** The ids read through a list of references. *)
Definition idsOf (h : heap) (ls : list loc) : list string :=
  omap (fun l => o_id <$> h !! l) ls.

Definition declIds (stmts : list Stmt) : list string :=
  omap (fun s => match s with Decl i _ => Some i | Arrow _ _ => None end) stmts.

Definition arrows (stmts : list Stmt) : list (string * string) :=
  omap (fun s => match s with Arrow a b => Some (a, b) | Decl _ _ => None end) stmts.

(** The arrows that leave the node with id [i], in the order of the text. *)
Definition arrowsFrom (i : string) (stmts : list Stmt) : list (string * string) :=
  filter (fun ab => ab.1 = i) (arrows stmts).

(** The [forEach] over the children inside [processNode], for the parent
    with id [pid]. *)
Fixpoint forEachChildNode (fuel' : nat) (h : heap) (pid : string) (l : list loc)
    (s : ExportState) : outcome ExportState :=
  match l with
  | [] => Done s
  | child :: r =>
      c ← deref h child;
      s' ← processNode fuel' h child
             (mkExportState (mermaidContent s ++ [Arrow pid (o_id c)])
                            (processedNodeIds s));
      forEachChildNode fuel' h pid r s'
  end.

(** What a run that takes the state from [st] to [st'] has appended. *)
Record Grows (h : heap) (st st' : ExportState) (delta : list Stmt) : Prop := mkGrows {
  grows_content : mermaidContent st' = mermaidContent st ++ delta;
  grows_visited :
    processedNodeIds st' = processedNodeIds st ∪ list_to_set (declIds delta);
  grows_nodup : NoDup (declIds delta);
  grows_fresh : forall i, i ∈ declIds delta -> i ∉ processedNodeIds st;
  grows_targets : forall a b, (a, b) ∈ arrows delta -> b ∈ processedNodeIds st';
  grows_expanded : forall i, i ∈ declIds delta ->
    exists p o, h !! p = Some o /\ o_id o = i /\
      Decl i (escapeLabel (o_label o)) ∈ delta /\
      arrowsFrom i delta = (fun t => (i, t)) <$> idsOf h (okids o)
}.

(** The root the specification designates, over references: the first
    entry whose object is of kind goal, or the first entry when there is
    none. *)
Definition designatedRoot (h : heap) (nodes : list loc) : option loc :=
  match filter (fun l => o_type <$> h !! l = Some (Some "goal")) nodes with
  | g :: _ => Some g
  | [] => head nodes
  end.

(** What a call of [processNode] achieves when its budget exceeds the
    number of ids of the store that are not yet visited. *)
Definition callSpec (h : heap) (fuel : nat) : Prop :=
  forall node o st,
    h !! node = Some o ->
    (size (heapIds h ∖ processedNodeIds st) < fuel)%nat ->
    exists st' delta,
      processNode fuel h node st = Done st' /\
      Grows h st st' delta /\
      o_id o ∈ processedNodeIds st' /\
      (forall a b, (a, b) ∈ arrows delta -> a ∈ declIds delta).

End Exporter.

(** ** Envelope handling of [fetchData] ([AttackTree.tsx]) *)

Module Normalizer.

(** Parsed JSON.  An object is the list of its members in document order. *)
Inductive json : Type :=
| JNull
| JBool (b : bool)
| JNum (q : Q)
| JStr (s : string)
| JArr (items : list json)
| JObj (members : list (string * json)).

(** A JavaScript value read out of the envelope; [None] is [undefined]. *)
Definition value := option json.

(** Member lookup; a later duplicate of a key wins, as in [JSON.parse]. *)
Fixpoint member (k : string) (ms : list (string * json)) : value :=
  match ms with
  | [] => None
  | (k', v) :: r =>
      match member k r with
      | Some v' => Some v'
      | None => if String.eqb k' k then Some v else None
      end
  end.

(** [v?.k] for the keys the code reads ([result], [attack_tree], [nodes],
    [markdown], [timestamp]): only an object can carry them. *)
Definition get (k : string) (v : value) : value :=
  match v with
  | Some (JObj ms) => member k ms
  | _ => None
  end.

(** Truthiness of a value. *)
Definition truthy (v : value) : bool :=
  match v with
  | None => false
  | Some JNull => false
  | Some (JBool b) => b
  | Some (JNum q) => negb (Qeq_bool q 0)
  | Some (JStr s) => negb (String.eqb s EmptyString)
  | Some (JArr _) => true
  | Some (JObj _) => true
  end.

(** [a || b] *)
Definition js_or (a b : value) : value := if truthy a then a else b.

(** The [processedData] object literal:
    [{ timestamp, result: { result: { markdown, attack_tree: { nodes } } } }]. *)
Record AttackTreeResponse := mkResponse {
  timestamp : value;
  markdown : value;
  attack_tree_nodes : value
}.

(** What [fetchData] leaves behind: the state set from a recognised
    envelope together with the node list handed to
    [processAttackTreeData], or the error message put on display. *)
Inductive FetchResult : Type :=
| Loaded (processedData : AttackTreeResponse) (treeNodes : value)
| ErrorShown (message : string).

(** The reply of [apiService.getAttackTree]: a rejection carrying the
    message of the [Error], or the parsed body. *)
Inductive ServiceReply : Type :=
| Rejected (message : string)
| Resolved (body : json).

Definition emptyStr : value := Some (JStr EmptyString).

(** The part of [fetchData] from [const data = await response.json()] up
    to the call of [processAttackTreeData].  [now] is the text of
    [new Date().toISOString()]; [service] is what the fall-back request
    answers.  The [throw] of the innermost [else] is caught by the
    [catch] of the same function, which stores the message. *)
Definition fetchData (now : string) (data : json) (service : ServiceReply) : FetchResult :=
  let data := Some data in
  if truthy (get "nodes" (get "attack_tree" (get "result" (get "result" data)))) then
    Loaded
      (mkResponse (get "timestamp" data)
                  (get "markdown" (get "result" (get "result" data)))
                  (get "nodes" (get "attack_tree" (get "result" (get "result" data)))))
      (get "nodes" (get "attack_tree" (get "result" (get "result" data))))
  else if truthy (get "nodes" (get "attack_tree" (get "result" data))) then
    Loaded
      (mkResponse (get "timestamp" data)
                  (js_or (get "markdown" (get "result" data)) emptyStr)
                  (get "nodes" (get "attack_tree" (get "result" data))))
      (get "nodes" (get "attack_tree" (get "result" data)))
  else if truthy (get "nodes" (get "result" data)) then
    Loaded
      (mkResponse (js_or (get "timestamp" data) (Some (JStr now)))
                  (js_or (get "markdown" (get "result" data)) emptyStr)
                  (get "nodes" (get "result" data)))
      (get "nodes" (get "result" data))
  else
    match service with
    | Rejected message => ErrorShown message
    | Resolved body =>
        let attackTreeResponse := Some body in
        if truthy (get "nodes" (get "attack_tree"
                     (get "result" (get "result" attackTreeResponse)))) then
          Loaded
            (mkResponse (get "timestamp" attackTreeResponse)
                        (js_or (get "markdown" (get "result" (get "result" attackTreeResponse)))
                               emptyStr)
                        (get "nodes" (get "attack_tree"
                           (get "result" (get "result" attackTreeResponse)))))
            (get "nodes" (get "attack_tree"
               (get "result" (get "result" attackTreeResponse))))
        else ErrorShown "Invalid attack tree data format received"
    end.

(** The places of an envelope at which a node list may sit. *)
Definition at_nodes (data : json) : value := get "nodes" (Some data).
Definition at_result_nodes (data : json) : value :=
  get "nodes" (get "result" (Some data)).
Definition at_result_attack_tree_nodes (data : json) : value :=
  get "nodes" (get "attack_tree" (get "result" (Some data))).
Definition at_result_result_nodes (data : json) : value :=
  get "nodes" (get "result" (get "result" (Some data))).
Definition at_result_result_attack_tree_nodes (data : json) : value :=
  get "nodes" (get "attack_tree" (get "result" (get "result" (Some data)))).

End Normalizer.

(** ** Derived notions used to state the properties *)

Module LayoutSpec.

Local Open Scope Q_scope.

(** The horizontal gap and the coordinates that one call of [createNodes]
    of the Attack Tree page computes ([createNodes_unfold] below ties them
    to the code). *)
Definition xGapOf (config : SpacingConfig) (level totalSiblings : nat) : Q :=
  match level with
  | O => 0
  | S O => baseWidth config * xGapMultiplier (level1 config)
           * Qmax 1 (num totalSiblings * siblingFactor (level1 config))
  | _ => baseWidth config * xGapMultiplier (level2 config)
         * Qmax 1 (num totalSiblings * siblingFactor (level2 config))
  end.

Definition nodeX (config : SpacingConfig) (level position totalSiblings : nat)
    (parentX : Q) : Q :=
  let xGap := xGapOf config level totalSiblings in
  match level with
  | O => 0
  | S O => (- (xGap * (num totalSiblings - 1))) / 2 + (num position * xGap)
  | _ => parentX - ((num totalSiblings - 1) * xGap) / 2 + (num position * xGap)
         + (num position - (num totalSiblings - 1) / 2) * horizontalOffset config
  end.

Definition nodeY (config : SpacingConfig) (level : nat) : Q :=
  num level * (verticalBase config + (num level * verticalIncrement config)).

(** The [forEach] over the children inside [createNodes]. *)
Fixpoint forEachChild (config : SpacingConfig) (l : list AttackTreeNode)
    (level idx totalSiblings : nat) (parentX : Q) (acc : LayoutAcc) : LayoutAcc :=
  match l with
  | [] => acc
  | childNode :: r =>
      forEachChild config r level (S idx) totalSiblings parentX
        (AttackTreePage.createNodes config childNode level idx totalSiblings parentX acc)
  end.

(** The nodes one call of [createNodes] adds to [flowNodes]. *)
Definition placed (config : SpacingConfig) (n : AttackTreeNode)
    (level position totalSiblings : nat) (parentX : Q) : list FlowNode :=
  flowNodes (AttackTreePage.createNodes config n level position totalSiblings parentX emptyAcc).

(** A placed node against the tree node it was made from and its depth. *)
Definition placedFrom (config : SpacingConfig) (fn : FlowNode)
    (md : AttackTreeNode * nat) : Prop :=
  fn_id fn = id md.1 /\ fn_type fn = str_or (type md.1) "goal" /\
  data_label fn = label md.1 /\ y (fn_position fn) = nodeY config md.2.

(** The nodes of a tree in preorder, each with its depth. *)
Fixpoint levels (n : AttackTreeNode) (level : nat) : list (AttackTreeNode * nat) :=
  (n, level) ::
  match children n with
  | Some cs => (fix go (l : list AttackTreeNode) : list (AttackTreeNode * nat) :=
                  match l with
                  | [] => []
                  | c :: r => levels c (S level) ++ go r
                  end) cs
  | None => []
  end.

(** Where the [i]-th child of the root stands in [flowNodes]: after the
    root and after the subtrees of the children before it. *)
Definition childIndex (root : AttackTreeNode) (i : nat) : nat :=
  S (sum_list_with tree_size (take i (kids root))).

(** The [forEach] over the children inside [createEdges], for the parent
    with id [pid]. *)
Fixpoint forEachEdge (pid : string) (l : list AttackTreeNode) (acc : list FlowEdge)
    : list FlowEdge :=
  match l with
  | [] => acc
  | childNode :: r =>
      forEachEdge pid r
        (createEdges childNode
           (acc ++ [mkFlowEdge (pid +:+ "-" +:+ id childNode) pid (id childNode)]))
  end.

(** The parent-child pairs of a tree: for every node, one pair per child. *)
Definition parentChildPairs (n : AttackTreeNode) : list (string * string) :=
  p ← subtrees n; (fun c => (id p, id c)) <$> kids p.

(** The root the specification designates: the first node of kind goal,
    or the first node when there is none. *)
Definition designatedRoot (treeNodes : list AttackTreeNode) : option AttackTreeNode :=
  match filter (fun n => type n = Some "goal") treeNodes with
  | g :: _ => Some g
  | [] => head treeNodes
  end.

End LayoutSpec.

(** ** Concrete inputs *)

Module Examples.

Import Exporter Normalizer.

(** A root with three children, the second of which has a child. *)
Definition threeChildren : AttackTreeNode :=
  mkNode "root" (Some "goal") "Root"
    (Some [mkNode "a" (Some "attack") "A" None;
           mkNode "b" (Some "attack") "B"
             (Some [mkNode "b1" (Some "vulnerability") "B1" None]);
           mkNode "c" (Some "attack") "C" None]).

(** A tree that consists of its root. *)
Definition single : AttackTreeNode := mkNode "g" (Some "goal") "Goal" None.

(** A node list whose first node is an attack and whose second is a goal. *)
Definition attackNode : AttackTreeNode :=
  mkNode "a" (Some "attack") "A" (Some [mkNode "x" (Some "vulnerability") "X" None]).
Definition goalNode : AttackTreeNode :=
  mkNode "g" (Some "goal") "G" (Some [mkNode "y" (Some "vulnerability") "Y" None]).
Definition attackFirst : list AttackTreeNode := [attackNode; goalNode].

(** A node of a kind outside the vocabulary. *)
Definition oddKind : AttackTreeNode := mkNode "t" (Some "threat") "T" None.

Definition emptyView : ViewState := mkViewState [] [].

(** A store with a node shared by two parents and a reference back to
    the root. *)
Definition diamond : heap :=
  {[ 0%nat := mkNodeObj "r" (Some "goal") "Root" (Some [1%nat; 2%nat]);
     1%nat := mkNodeObj "a" (Some "attack") "A" (Some [3%nat]);
     2%nat := mkNodeObj "b" (Some "attack") "B" (Some [3%nat; 0%nat]);
     3%nat := mkNodeObj "c" (Some "vulnerability") "C" None ]}.

(** A store with a single, childless node. *)
Definition lone : heap := {[ 0%nat := mkNodeObj "g" (Some "goal") "Goal" None ]}.

(** A store whose entry list starts with a node of an unknown kind,
    followed by a goal; and the same store with that first node retyped
    to goal. *)
Definition oddFirst : heap :=
  {[ 0%nat := mkNodeObj "t" (Some "threat") "T" None;
     1%nat := mkNodeObj "g" (Some "goal") "G" None ]}.
Definition oddFirstAsGoal : heap :=
  {[ 0%nat := mkNodeObj "t" (Some "goal") "T" None;
     1%nat := mkNodeObj "g" (Some "goal") "G" None ]}.

(** The scenario of the specification: a goal with two attacks, the first
    of which rests on one vulnerability; as a tree and as a store. *)
Definition scenario : AttackTreeNode :=
  mkNode "goal" (Some "goal") "Compromise System"
    (Some [mkNode "phish" (Some "attack") "Phish Admin"
             (Some [mkNode "weak" (Some "vulnerability") "Weak Password Policy" None]);
           mkNode "exploit" (Some "attack") "Exploit Web Vuln" None]).
Definition scenarioStore : heap :=
  {[ 0%nat := mkNodeObj "goal" (Some "goal") "Compromise System" (Some [1%nat; 3%nat]);
     1%nat := mkNodeObj "phish" (Some "attack") "Phish Admin" (Some [2%nat]);
     2%nat := mkNodeObj "weak" (Some "vulnerability") "Weak Password Policy" None;
     3%nat := mkNodeObj "exploit" (Some "attack") "Exploit Web Vuln" None ]}.

(** Envelopes. *)
Definition nodeList : json :=
  JArr [JObj [("id", JStr "g"); ("type", JStr "goal"); ("label", JStr "Goal")]].
Definition topLevel : json := JObj [("nodes", nodeList)].
Definition resultResult : json :=
  JObj [("result", JObj [("result", JObj [("nodes", nodeList)])])].
Definition resultOnly : json := JObj [("result", JObj [("nodes", nodeList)])].

End Examples.

(** ** Further derived notions *)

Module LayoutMore.

Local Open Scope Q_scope.

(** The own properties that result from assigning the position of every
    node of a list, in order, under its id. *)
Definition recordAll (m : gmap string Position) (ns : list FlowNode)
    : gmap string Position :=
  foldl (fun m fn => assign (fn_id fn) (fn_position fn) m) m ns.

(** The number of levels below a node: 0 for a node without children. *)
Fixpoint height (n : AttackTreeNode) : nat :=
  match children n with
  | Some cs => (fix go (l : list AttackTreeNode) : nat :=
                  match l with
                  | [] => O
                  | c :: r => Nat.max (S (height c)) (go r)
                  end) cs
  | None => O
  end.

(** The horizontal gap and x-coordinate that one call of [createNodes] of
    the report view computes. *)
Definition rvXGapOf (cfg : SpacingConfig) (level totalSiblings : nat) : Q :=
  match level with
  | O => 0
  | S O => baseWidth cfg * xGapMultiplier (level1 cfg)
           * Qmax 1 (num totalSiblings * siblingFactor (level1 cfg))
  | S (S O) => baseWidth cfg * xGapMultiplier (level2 cfg)
               * Qmax 1 (num totalSiblings * siblingFactor (level2 cfg))
  | _ => baseWidth cfg * 1.2 * Qmax 1 (num totalSiblings * 0.4)
  end.

Definition rvNodeX (cfg : SpacingConfig) (level position totalSiblings : nat)
    (parentX : Q) : Q :=
  let xGap := rvXGapOf cfg level totalSiblings in
  match level with
  | O => 0
  | S O => (- (xGap * (num totalSiblings - 1))) / 2 + (num position * xGap)
  | _ => parentX - ((num totalSiblings - 1) * xGap) / 2 + (num position * xGap)
         + (num position - (num totalSiblings - 1) / 2) * 15
  end.

(** The [forEach] over the children inside [createNodes] of the report
    view, and the nodes one call adds. *)
Fixpoint rvForEachChild (cfg : SpacingConfig) (l : list AttackTreeNode)
    (level idx totalSiblings : nat) (parentX : Q) (acc : LayoutAcc) : LayoutAcc :=
  match l with
  | [] => acc
  | childNode :: r =>
      rvForEachChild cfg r level (S idx) totalSiblings parentX
        (ReportView.createNodes cfg childNode level idx totalSiblings parentX acc)
  end.

Definition rvPlaced (cfg : SpacingConfig) (n : AttackTreeNode)
    (level position totalSiblings : nat) (parentX : Q) : list FlowNode :=
  flowNodes (ReportView.createNodes cfg n level position totalSiblings parentX emptyAcc).

End LayoutMore.

Module ExportMore.

Import Exporter.

(** The locations that can be reached from [r] through [children]
    arrays. *)
Inductive reach (h : heap) (r : loc) : loc -> Prop :=
| reach_root : reach h r r
| reach_child l o c :
    reach h r l -> h !! l = Some o -> c ∈ okids o -> reach h r c.

(** The store holds, at [l], the tree [t]: the object at [l] carries the
    id, label and type of [t], and its [children] array holds, entry by
    entry, the children of [t]. *)
Fixpoint repr (h : heap) (t : AttackTreeNode) (l : loc) : Prop :=
  match h !! l with
  | None => False
  | Some o =>
      o_id o = id t /\ o_label o = label t /\ o_type o = type t /\
      match children t with
      | Some cs =>
          (fix go (cs : list AttackTreeNode) (ls : list loc) : Prop :=
             match cs, ls with
             | [], [] => True
             | c :: cs', l' :: ls' => repr h c l' /\ go cs' ls'
             | _, _ => False
             end) cs (okids o)
      | None => okids o = []
      end
  end.

(** The statements of a tree in the order of a depth-first walk: the
    declaration of a node, then for each child the arrow to it followed
    by the statements of the child. *)
Fixpoint treeStmts (t : AttackTreeNode) : list Stmt :=
  Decl (id t) (escapeLabel (label t)) ::
  match children t with
  | Some cs =>
      (fix go (l : list AttackTreeNode) : list Stmt :=
         match l with
         | [] => []
         | c :: r => Arrow (id t) (id c) :: treeStmts c ++ go r
         end) cs
  | None => []
  end.

(** What a run from [root] may have appended: declarations of reachable
    nodes and arrows from reachable nodes to their children. *)
Definition sound (h : heap) (root : loc) (delta : list Stmt) : Prop :=
  (forall i t, Decl i t ∈ delta ->
     exists l o, reach h root l /\ h !! l = Some o /\
                 o_id o = i /\ t = escapeLabel (o_label o)) /\
  (forall a b, Arrow a b ∈ delta ->
     exists l o c oc, reach h root l /\ h !! l = Some o /\ c ∈ okids o /\
                      h !! c = Some oc /\ a = o_id o /\ b = o_id oc).

(** What [processNode] does at a location that holds a tree with pairwise
    distinct, not yet visited ids. *)
Definition exportsTree (h : heap) (c : AttackTreeNode) : Prop :=
  forall l st fuel,
    repr h c l -> NoDup (id <$> subtrees c) ->
    (forall i, i ∈ id <$> subtrees c -> i ∉ processedNodeIds st) ->
    (LayoutMore.height c < fuel)%nat ->
    processNode fuel h l st
    = Done (mkExportState (mermaidContent st ++ treeStmts c)
              (list_to_set (id <$> subtrees c) ∪ processedNodeIds st)).

End ExportMore.

(** ** JavaScript numbers as IEEE 754 doubles

    Where a property depends on how numbers round, or on NaN, a number is
    a binary64 value as [SpecFloat] of the Standard Library specifies it:
    53 bits of precision, rounding to nearest with ties to even. *)

Module JsNumber.

Definition number : Type := spec_float.

Definition prec : Z := 53.
Definition emax : Z := 1024.

(** The number written as an integer literal, or held by an integer
    quantity such as [length]. *)
Definition ofZ (z : Z) : number := binary_normalize prec emax z 0 false.

(** [a + b] and [a / b] on numbers. *)
Definition add (a b : number) : number := SFadd prec emax a b.
Definition div (a b : number) : number := SFdiv prec emax a b.

(** [a >= b] and [a < b] on numbers: false whenever an operand is NaN. *)
Definition geb (a b : number) : bool := SFleb b a.
Definition ltb (a b : number) : bool := SFltb a b.

Definition isNaN (a : number) : bool :=
  match a with S754_nan => true | _ => false end.

#[global] Instance number_eq_dec : EqDecision number.
Proof. solve_decision. Defined.

End JsNumber.

(** ** The DREAD page ([Dread.tsx]) *)

Module DreadPage.

Import Normalizer JsNumber.

(** [getDreadItems(result)]: the three places at which the list of
    assessment items is looked for, and the empty array otherwise.  None
    of the property reads can raise, so the [catch] branch is never
    taken. *)
Definition getDreadItems (result : value) : value :=
  if truthy (get "Risk Assessment" (get "raw_response" result)) then
    get "Risk Assessment" (get "raw_response" result)
  else if truthy (get "Risk Assessment" (get "raw_response" (get "result" result))) then
    get "Risk Assessment" (get "raw_response" (get "result" result))
  else if truthy (get "Risk Assessment"
                    (get "raw_response" (get "result" (get "result" result)))) then
    get "Risk Assessment" (get "raw_response" (get "result" (get "result" result)))
  else Some (JArr []).

(** The test of [fetchAllData] that raises
    [Invalid DREAD assessment data structure]:
    [!dreadResponse?.result || !getDreadItems(dreadResponse.result)]. *)
Definition rejectsResponse (dreadResponse : value) : bool :=
  negb (truthy (get "result" dreadResponse))
  || negb (truthy (getDreadItems (get "result" dreadResponse))).

(** [DreadAssessmentItem]: the five ratings are numbers, as the interface
    declares them.  A rating that is missing from the object reads as
    [undefined], which the addition in [calculateRiskScore] converts to
    NaN; NaN stands for it here. *)
Record DreadAssessment := mkDreadAssessment {
  threatType : string;
  scenario : string;
  damagePotential : number;
  reproducibility : number;
  exploitability : number;
  affectedUsers : number;
  discoverability : number
}.

(** The array [scores] of [calculateRiskScore]. *)
Definition scoresOf (assessment : DreadAssessment) : list number :=
  [damagePotential assessment; reproducibility assessment;
   exploitability assessment; affectedUsers assessment;
   discoverability assessment].

(** [calculateRiskScore]: [scores.reduce((a, b) => a + b, 0) / scores.length]. *)
Definition calculateRiskScore (assessment : DreadAssessment) : number :=
  let scores := scoresOf assessment in
  div (fold_left add scores (ofZ 0)) (ofZ (Z.of_nat (length scores))).

Record RiskBadge := mkRiskBadge { text : string; color : string }.

(** [getRiskLevel(score)] *)
Definition getRiskLevel (score : number) : RiskBadge :=
  if geb score (ofZ 8) then mkRiskBadge "High" "text-red-600 bg-red-50"
  else if geb score (ofZ 6) then mkRiskBadge "Medium" "text-yellow-600 bg-yellow-50"
  else mkRiskBadge "Low" "text-green-600 bg-green-50".

(** The filter of the risk distribution cards, for one of the levels
    [High], [Medium], [Low] (any other text is treated like [Low]). *)
Definition inLevel (level : string) (assessment : DreadAssessment) : bool :=
  let score := calculateRiskScore assessment in
  if String.eqb level "High" then geb score (ofZ 8)
  else if String.eqb level "Medium" then geb score (ofZ 6) && ltb score (ofZ 8)
  else ltb score (ofZ 6).

Definition countLevel (level : string) (sortedAssessments : list DreadAssessment) : nat :=
  length (List.filter (inLevel level) sortedAssessments).

End DreadPage.

(** ** Loading the report ([getReport] of the API service, [fetchReportData]
    of [Dread.tsx]) *)

Module ReportFetch.

Import Normalizer.

(** An object literal: a member whose value is [undefined] reads like a
    missing one and is left out. *)
Definition obj (members : list (string * value)) : json :=
  JObj (omap (fun kv => match kv.2 with Some j => Some (kv.1, j) | None => None end)
          members).

(** [processedData] of [fetchData] as the value that is put into the
    context. *)
Definition asEnvelope (processedData : AttackTreeResponse) : json :=
  obj [("timestamp", timestamp processedData);
       ("result",
        Some (obj [("result",
                    Some (obj [("markdown", markdown processedData);
                               ("attack_tree",
                                Some (obj [("nodes",
                                            attack_tree_nodes processedData)]))]))]))].

(** [null] and [undefined]: reading a property of either raises a
    [TypeError]. *)
Definition nullish (v : value) : bool :=
  match v with
  | None => true
  | Some JNull => true
  | _ => false
  end.

(** The four stored documents as [getReport] receives them; [None] is the
    [null] put in place of a failed request. *)
Record Replies := mkReplies {
  r_threat_model : value;
  r_dread_assessment : value;
  r_mitigation : value;
  r_attack_tree : value
}.

(** [if (data && data.result) result[type] = data] *)
Definition keep (data : value) : value :=
  if truthy data && truthy (get "result" data) then data else None.

(** [getReport]: the documents kept under their type, or the error
    [No report data found] when none is kept. *)
Definition getReport (timestamp : string) (rs : Replies) : ServiceReply :=
  match keep (r_threat_model rs), keep (r_dread_assessment rs),
        keep (r_mitigation rs), keep (r_attack_tree rs) with
  | None, None, None, None => Rejected "No report data found"
  | tm, da, mi, at_ =>
      Resolved (obj [("timestamp", Some (JStr timestamp));
                     ("result",
                      Some (obj [("threat_model", tm); ("dread_assessment", da);
                                 ("mitigation", mi); ("attack_tree", at_)]))])
  end.

Definition emptyArr : value := Some (JArr []).

(** The four [transform...] functions.  [None] stands for the [TypeError]
    raised by [data.result.result.x] when [data.result] or
    [data.result.result] is [null] or [undefined]. *)
Definition transformThreatModel (data : value) : option json :=
  if nullish (get "result" data) then None
  else if nullish (get "result" (get "result" data)) then None
  else
    let rr := get "result" (get "result" data) in
    Some (obj [("timestamp", get "timestamp" data);
               ("result",
                Some (obj [("result",
                  Some (obj [("raw_response",
                              Some (obj [("threat_model",
                                          js_or (get "threat_model" (get "raw_response" rr))
                                                emptyArr);
                                         ("improvement_suggestions",
                                          js_or (get "improvement_suggestions"
                                                   (get "raw_response" rr))
                                                emptyArr)]));
                             ("markdown", js_or (get "markdown" rr) emptyStr);
                             ("threat_model", get "threat_model" rr)]))]))]).

Definition transformDreadAssessment (data : value) : option json :=
  if nullish (get "result" data) then None
  else if nullish (get "result" (get "result" data)) then None
  else
    let rr := get "result" (get "result" data) in
    Some (obj [("timestamp", get "timestamp" data);
               ("result",
                Some (obj [("result",
                  Some (obj [("raw_response",
                              Some (obj [("Risk Assessment",
                                          js_or (get "Risk Assessment"
                                                   (get "raw_response" rr))
                                                emptyArr)]));
                             ("markdown", js_or (get "markdown" rr) emptyStr)]))]))]).

Definition transformMitigation (data : value) : option json :=
  if nullish (get "result" data) then None
  else if nullish (get "result" (get "result" data)) then None
  else
    let rr := get "result" (get "result" data) in
    Some (obj [("timestamp", get "timestamp" data);
               ("result",
                Some (obj [("result",
                  Some (obj [("markdown", js_or (get "markdown" rr) emptyStr);
                             ("raw_response",
                              Some (obj [("mitigations",
                                          js_or (get "mitigations"
                                                   (get "raw_response" rr))
                                                emptyArr)]))]))]))]).

Definition transformAttackTree (data : value) : option json :=
  if nullish (get "result" data) then None
  else if nullish (get "result" (get "result" data)) then None
  else
    let rr := get "result" (get "result" data) in
    Some (obj [("timestamp", get "timestamp" data);
               ("result",
                Some (obj [("result",
                  Some (obj [("markdown", js_or (get "markdown" rr) emptyStr);
                             ("attack_tree", get "attack_tree" rr)]))]))]).

(** One entry of the [reportData] state ([loading] is [false] in every
    state [fetchReportData] sets). *)
Record SectionState := mkSectionState {
  data : option json;
  error : option string
}.

Record ReportData := mkReportData {
  threat_model : SectionState;
  dread_assessment : SectionState;
  mitigation : SectionState;
  attack_tree : SectionState
}.

(** The state set by the [catch] branch. *)
Definition allFailed : ReportData :=
  mkReportData (mkSectionState None (Some "Failed to load threat model"))
               (mkSectionState None (Some "Failed to load DREAD assessment"))
               (mkSectionState None (Some "Failed to load mitigations"))
               (mkSectionState None (Some "Failed to load attack tree")).

(** [x ? transform(x) : null]; the outer [None] is a raised error. *)
Definition section (x : value) (transform : value -> option json)
    : option (option json) :=
  if truthy x then
    match transform x with
    | Some j => Some (Some j)
    | None => None
    end
  else Some None.

(** [fetchReportData], from the reply of [getReport] to the state it
    sets. *)
Definition fetchReportData (reply : ServiceReply) : ReportData :=
  match reply with
  | Rejected _ => allFailed
  | Resolved body =>
      let data := Some body in
      if truthy data && truthy (get "result" data) then
        match section (get "threat_model" (get "result" data)) transformThreatModel with
        | None => allFailed
        | Some tm =>
            match section (get "dread_assessment" (get "result" data))
                    transformDreadAssessment with
            | None => allFailed
            | Some da =>
                match section (get "mitigation" (get "result" data)) transformMitigation with
                | None => allFailed
                | Some mi =>
                    match section (get "attack_tree" (get "result" data))
                            transformAttackTree with
                    | None => allFailed
                    | Some at_ =>
                        mkReportData (mkSectionState tm None) (mkSectionState da None)
                                     (mkSectionState mi None) (mkSectionState at_ None)
                    end
                end
            end
        end
      else allFailed
  end.

(** A stored document that [fetchReportData] can transform: it is missing
    or its [result.result] is neither [null] nor [undefined]. *)
Definition transformable (x : value) : bool :=
  negb (truthy (keep x)) || negb (nullish (get "result" (get "result" x))).

(** [reportData.attack_tree.data?.result?.result?.attack_tree?.nodes], the
    node list the report hands to the export. *)
Definition exportedNodes (rd : ReportData) : value :=
  get "nodes" (get "attack_tree" (get "result" (get "result" (data (attack_tree rd))))).

End ReportFetch.

(** * Properties *)

(** Closes a decidable statement about concrete data by evaluation. *)
Ltac by_evaluation := refine (bool_decide_unpack _ _); vm_compute; exact I.

(** ** Trees *)

Section TreeFacts.

Import LayoutSpec.

(** Structural induction that reaches the children. *)
Lemma AttackTreeNode_rect' (P : AttackTreeNode -> Type) (Q : list AttackTreeNode -> Type)
    (Hnone : forall i t l, P (mkNode i t l None))
    (Hsome : forall i t l cs, Q cs -> P (mkNode i t l (Some cs)))
    (Hnil : Q [])
    (Hcons : forall c cs, P c -> Q cs -> Q (c :: cs)) :
  forall n, P n.
Proof.
  fix IH 1. intros [i t l [cs|]].
  - apply Hsome. induction cs as [|c cs IHcs].
    + exact Hnil.
    + apply Hcons; [apply IH | exact IHcs].
  - apply Hnone.
Defined.

Lemma AttackTreeNode_ind' (P : AttackTreeNode -> Prop)
    (Hnode : forall n, Forall P (kids n) -> P n) :
  forall n, P n.
Proof.
  apply (AttackTreeNode_rect' P (Forall P)).
  - intros i t l. apply Hnode. constructor.
  - intros i t l cs Hcs. apply Hnode. exact Hcs.
  - constructor.
  - intros c cs Hc Hcs. constructor; assumption.
Qed.

Lemma subtrees_unfold n : subtrees n = n :: (kids n ≫= subtrees).
Proof.
  destruct n as [i t l [cs|]]; reflexivity.
Qed.

Lemma levels_unfold n level :
  levels n level = (n, level) :: (kids n ≫= fun c => levels c (S level)).
Proof.
  destruct n as [i t l [cs|]]; reflexivity.
Qed.

Lemma tree_size_unfold n :
  tree_size n = S (length (kids n ≫= subtrees)).
Proof. unfold tree_size. rewrite subtrees_unfold at 1. reflexivity. Qed.

Lemma tree_size_pos n : (0 < tree_size n)%nat.
Proof. rewrite tree_size_unfold. lia. Qed.

Lemma levels_fst n : forall level, fst <$> levels n level = subtrees n.
Proof.
  induction n as [n IH] using AttackTreeNode_ind'. intros level.
  rewrite levels_unfold, subtrees_unfold. cbn. f_equal.
  induction IH as [|c cs Hc _ IHcs]; [reflexivity|].
  cbn. rewrite fmap_app, Hc, IHcs. reflexivity.
Qed.

Lemma parentChildPairs_unfold n :
  parentChildPairs n
  = ((fun c => (id n, id c)) <$> kids n) ++ (kids n ≫= parentChildPairs).
Proof.
  unfold parentChildPairs at 1. rewrite subtrees_unfold. cbn. f_equal.
  induction (kids n) as [|c cs IH]; [reflexivity|].
  cbn. rewrite bind_app, IH. reflexivity.
Qed.

(** *** The edge pass *)

Lemma forEachEdge_loop n cs : forall acc,
  (fix forEach (l : list AttackTreeNode) (acc : list FlowEdge) : list FlowEdge :=
     match l with
     | [] => acc
     | childNode :: r =>
         forEach r
           (createEdges childNode
              (acc ++ [mkFlowEdge (id n +:+ "-" +:+ id childNode) (id n) (id childNode)]))
     end) cs acc
  = forEachEdge (id n) cs acc.
Proof.
  induction cs as [|c cs IH]; intros acc; [reflexivity|].
  cbn [forEachEdge]. rewrite <- IH. reflexivity.
Qed.

Lemma createEdges_unfold n acc :
  createEdges n acc = forEachEdge (id n) (kids n) acc.
Proof.
  destruct n as [i t l [cs|]]; unfold kids; cbn [children id].
  - rewrite <- (forEachEdge_loop (mkNode i t l (Some cs))). reflexivity.
  - reflexivity.
Qed.

Lemma forEachEdge_app pid cs :
  Forall (fun c => forall acc, createEdges c acc = acc ++ createEdges c []) cs ->
  forall acc,
    forEachEdge pid cs acc
    = acc ++ (cs ≫= fun c =>
                mkFlowEdge (pid +:+ "-" +:+ id c) pid (id c) :: createEdges c []).
Proof.
  induction 1 as [|c cs Hc _ IH]; intros acc; cbn [forEachEdge].
  - cbn. rewrite app_nil_r. reflexivity.
  - rewrite IH, Hc. cbn. rewrite <- !app_assoc. reflexivity.
Qed.

Lemma createEdges_app n : forall acc, createEdges n acc = acc ++ createEdges n [].
Proof.
  induction n as [n IH] using AttackTreeNode_ind'. intros acc.
  rewrite !createEdges_unfold, !(forEachEdge_app _ _ IH). reflexivity.
Qed.

Lemma createEdges_nil_unfold n :
  createEdges n []
  = kids n ≫= fun c =>
      mkFlowEdge (id n +:+ "-" +:+ id c) (id n) (id c) :: createEdges c [].
Proof.
  rewrite createEdges_unfold, forEachEdge_app; [reflexivity|].
  apply Forall_forall. intros c _. apply createEdges_app.
Qed.

Lemma createEdges_length n : S (length (createEdges n [])) = tree_size n.
Proof.
  induction n as [n IH] using AttackTreeNode_ind'.
  rewrite createEdges_nil_unfold, tree_size_unfold. f_equal.
  induction IH as [|c cs Hc _ IHcs]; [reflexivity|].
  cbn. rewrite !length_app, IHcs. fold (tree_size c). lia.
Qed.

Lemma createEdges_pairs n :
  (fun e => (source e, target e)) <$> createEdges n [] ≡ₚ parentChildPairs n.
Proof.
  induction n as [n IH] using AttackTreeNode_ind'.
  rewrite createEdges_nil_unfold, parentChildPairs_unfold.
  induction IH as [|c cs Hc _ IHcs]; [reflexivity|].
  cbn. apply Permutation_skip.
  rewrite fmap_app, Hc, IHcs.
  rewrite !app_assoc. apply Permutation_app_tail, Permutation_app_comm.
Qed.

Lemma createEdges_ids n :
  Forall (fun e => edge_id e = source e +:+ "-" +:+ target e) (createEdges n []).
Proof.
  induction n as [n IH] using AttackTreeNode_ind'.
  rewrite createEdges_nil_unfold.
  induction IH as [|c cs Hc _ IHcs]; [constructor|].
  cbn. constructor; [reflexivity|]. apply Forall_app. split; assumption.
Qed.

End TreeFacts.

(** ** The layout of the Attack Tree page *)

Section LayoutFacts.

Import LayoutSpec.
Local Open Scope Q_scope.

Variable config : SpacingConfig.

Lemma forEach_loop cs level k X : forall j a,
  (fix forEach (l : list AttackTreeNode) (idx : nat) (a : LayoutAcc) : LayoutAcc :=
     match l with
     | [] => a
     | childNode :: r =>
         forEach r (S idx) (AttackTreePage.createNodes config childNode level idx k X a)
     end) cs j a
  = forEachChild config cs level j k X a.
Proof.
  induction cs as [|c cs IH]; intros j a; [reflexivity|].
  cbn [forEachChild]. rewrite <- IH. reflexivity.
Qed.

Lemma createNodes_unfold n level position totalSiblings parentX acc :
  AttackTreePage.createNodes config n level position totalSiblings parentX acc =
  let px := nodeX config level position totalSiblings parentX in
  let py := nodeY config level in
  forEachChild config (kids n) (S level) 0 (length (kids n)) px
    (mkLayoutAcc
       (flowNodes acc ++ [mkFlowNode (id n) (str_or (type n) "goal") (mkPosition px py) (label n)])
       (assign (id n) (mkPosition px py) (nodePositions acc))).
Proof.
  destruct n as [i t l [cs|]]; unfold kids; cbn [children].
  - cbv zeta. rewrite <- forEach_loop. reflexivity.
  - reflexivity.
Qed.

Lemma forEachChild_flowNodes cs level k X :
  Forall (fun c => forall lv pos ts px acc,
            flowNodes (AttackTreePage.createNodes config c lv pos ts px acc)
            = flowNodes acc ++ placed config c lv pos ts px) cs ->
  forall j acc,
    flowNodes (forEachChild config cs level j k X acc)
    = flowNodes acc ++ concat (imap (fun i c => placed config c level (j + i) k X) cs).
Proof.
  induction 1 as [|c cs Hc _ IH]; intros j acc; cbn [forEachChild].
  - rewrite app_nil_r. reflexivity.
  - rewrite IH, Hc, imap_cons. cbn [concat]. rewrite Nat.add_0_r, <- app_assoc.
    do 3 f_equal. apply imap_ext. intros i c' _. cbn. f_equal. lia.
Qed.

Lemma createNodes_flowNodes n : forall level position totalSiblings parentX acc,
  flowNodes (AttackTreePage.createNodes config n level position totalSiblings parentX acc)
  = flowNodes acc ++ placed config n level position totalSiblings parentX.
Proof.
  induction n as [n IH] using AttackTreeNode_ind'.
  intros level position totalSiblings parentX acc. unfold placed.
  rewrite !createNodes_unfold. cbv zeta.
  rewrite !(forEachChild_flowNodes _ _ _ _ IH). cbn [flowNodes].
  rewrite app_nil_l, <- app_assoc. reflexivity.
Qed.

Lemma placed_unfold n level position totalSiblings parentX :
  placed config n level position totalSiblings parentX
  = mkFlowNode (id n) (str_or (type n) "goal")
      (mkPosition (nodeX config level position totalSiblings parentX) (nodeY config level))
      (label n)
    :: concat (imap (fun i c =>
                 placed config c (S level) i (length (kids n))
                   (nodeX config level position totalSiblings parentX))
               (kids n)).
Proof.
  unfold placed at 1. rewrite createNodes_unfold. cbv zeta.
  rewrite forEachChild_flowNodes.
  - reflexivity.
  - apply Forall_forall. intros c _. apply createNodes_flowNodes.
Qed.

Lemma concat_imap_Forall2 {A B C : Type} (R : B -> C -> Prop)
    (g : A -> list C) (cs : list A) : forall f : nat -> A -> list B,
  (forall i c, c ∈ cs -> Forall2 R (f i c) (g c)) ->
  Forall2 R (concat (imap f cs)) (cs ≫= g).
Proof.
  induction cs as [|c cs IH]; intros f Hf; [constructor|].
  rewrite imap_cons. cbn. apply Forall2_app.
  - apply Hf. left.
  - apply IH. intros i c' Hc'. apply Hf. right. exact Hc'.
Qed.

Lemma placed_levels n : forall level position totalSiblings parentX,
  Forall2 (placedFrom config) (placed config n level position totalSiblings parentX) (levels n level).
Proof.
  induction n as [n IH] using AttackTreeNode_ind'.
  intros level position totalSiblings parentX.
  rewrite placed_unfold, levels_unfold. constructor.
  - repeat split.
  - apply concat_imap_Forall2. intros i c Hc.
    rewrite Forall_forall in IH. apply IH, Hc.
Qed.

Lemma placed_length n level position totalSiblings parentX :
  length (placed config n level position totalSiblings parentX) = tree_size n.
Proof.
  rewrite (Forall2_length _ _ _ (placed_levels n level position totalSiblings parentX)).
  unfold tree_size. rewrite <- (levels_fst n level), length_fmap. reflexivity.
Qed.

Lemma placed_ids n level position totalSiblings parentX :
  fn_id <$> placed config n level position totalSiblings parentX = id <$> subtrees n.
Proof.
  rewrite <- (levels_fst n level), <- list_fmap_compose.
  pose proof (placed_levels n level position totalSiblings parentX) as H.
  induction H as [|fn md fns mds Hh _ IH]; [reflexivity|].
  cbn. f_equal; [apply Hh | exact IH].
Qed.

Lemma concat_imap_lookup {A B : Type} (sz : A -> nat) (cs : list A) :
  forall (f : nat -> A -> list B) i c b,
    (forall j c', length (f j c') = sz c') ->
    cs !! i = Some c -> head (f i c) = Some b ->
    concat (imap f cs) !! sum_list_with sz (take i cs) = Some b.
Proof.
  induction cs as [|c0 cs IH]; intros f i c b Hlen Hi Hb; [discriminate|].
  rewrite imap_cons. destruct i as [|i]; cbn in *.
  - injection Hi as ->. destruct (f 0%nat c); [discriminate|]. exact Hb.
  - rewrite lookup_app_r; rewrite Hlen; [|lia].
    replace (sz c0 + sum_list_with sz (take i cs) - sz c0)%nat
      with (sum_list_with sz (take i cs)) by lia.
    apply (IH (f ∘ S) i c b); [intros; apply Hlen | exact Hi | exact Hb].
Qed.

Lemma child_placed root i c :
  kids root !! i = Some c ->
  fst (AttackTreePage.layoutOf config root) !! childIndex root i
  = Some (mkFlowNode (id c) (str_or (type c) "goal")
            (mkPosition (nodeX config 1 i (length (kids root)) 0) (nodeY config 1))
            (label c)).
Proof.
  intros Hi. unfold AttackTreePage.layoutOf, childIndex. cbn [fst].
  fold (placed config root 0 0 1 0). rewrite placed_unfold. cbn [lookup list_lookup].
  apply (concat_imap_lookup tree_size _ _ i c); [| exact Hi |].
  - intros j c'. apply placed_length.
  - rewrite placed_unfold. reflexivity.
Qed.

End LayoutFacts.

Section LayoutClaims.

Import LayoutSpec.
Local Open Scope Q_scope.

(** C2. For every tree with N nodes the two passes of the layout produce
    exactly N positioned nodes, one per tree node in preorder, and exactly
    N-1 edges: the edges are, up to order, the parent-child pairs of the
    tree, each directed from the parent to the child and named
    parent-child. *)
Theorem layout_node_and_edge_counts (config : SpacingConfig) (root : AttackTreeNode) :
  let '(flowNodes, flowEdges) := AttackTreePage.layoutOf config root in
  length flowNodes = tree_size root /\
  length flowEdges = (tree_size root - 1)%nat /\
  fn_id <$> flowNodes = id <$> subtrees root /\
  (fun e => (source e, target e)) <$> flowEdges ≡ₚ parentChildPairs root /\
  Forall (fun e => edge_id e = source e +:+ "-" +:+ target e) flowEdges.
Proof.
  unfold AttackTreePage.layoutOf. fold (placed config root 0 0 1 0).
  repeat split.
  - apply placed_length.
  - pose proof (createEdges_length root). lia.
  - apply placed_ids.
  - apply createEdges_pairs.
  - apply createEdges_ids.
Qed.

(** C3. For every tree and every spacing configuration the first
    positioned node is the root and its position is (0, 0). *)
Theorem root_position_origin (config : SpacingConfig) (root : AttackTreeNode) :
  exists fn rest,
    fst (AttackTreePage.layoutOf config root) = fn :: rest /\
    fn_id fn = id root /\
    x (fn_position fn) = 0 /\ y (fn_position fn) == 0.
Proof.
  unfold AttackTreePage.layoutOf. fold (placed config root 0 0 1 0).
  rewrite placed_unfold. cbn [fst]. eexists _, _. split; [reflexivity|].
  cbn [fn_id fn_position x y]. split; [reflexivity|]. split; [reflexivity|].
  unfold nodeY, num. cbn [Z.of_nat inject_Z]. ring.
Qed.

(** C5. Every node of the tree, at depth d, is given the y-coordinate
    d * (verticalBase + d * verticalIncrement). *)
Theorem y_by_depth (config : SpacingConfig) (root : AttackTreeNode) :
  Forall2
    (fun fn md =>
       fn_id fn = id md.1 /\
       y (fn_position fn)
       = num md.2 * (verticalBase config + num md.2 * verticalIncrement config))
    (fst (AttackTreePage.layoutOf config root)) (levels root 0).
Proof.
  unfold AttackTreePage.layoutOf. fold (placed config root 0 0 1 0). cbn [fst].
  eapply Forall2_impl; [apply placed_levels|].
  intros fn md (Hid & _ & _ & Hy). split; [exact Hid | exact Hy].
Qed.

(** C4. The i-th of the k children of the root is placed at
    x = -totalWidth/2 + i*gap with
    gap = baseWidth * level1.xGapMultiplier * max(1, k * level1.siblingFactor)
    and totalWidth = gap * (k - 1); and when the root has three children,
    their x-coordinates under the page's configuration are symmetric about
    0 and strictly increasing in input order. *)
Theorem level1_children_x (root : AttackTreeNode) (i : nat) (c : AttackTreeNode) :
  kids root !! i = Some c ->
  (forall config : SpacingConfig,
     let k := length (kids root) in
     let gap := baseWidth config * xGapMultiplier (level1 config)
                * Qmax 1 (num k * siblingFactor (level1 config)) in
     let totalWidth := gap * (num k - 1) in
     exists fn,
       fst (AttackTreePage.layoutOf config root) !! childIndex root i = Some fn /\
       fn_id fn = id c /\
       x (fn_position fn) = (- totalWidth) / 2 + num i * gap) /\
  (length (kids root) = 3%nat ->
   exists f0 f1 f2,
     fst (AttackTreePage.layoutOf AttackTreePage.config root) !! childIndex root 0 = Some f0 /\
     fst (AttackTreePage.layoutOf AttackTreePage.config root) !! childIndex root 1 = Some f1 /\
     fst (AttackTreePage.layoutOf AttackTreePage.config root) !! childIndex root 2 = Some f2 /\
     x (fn_position f0) == - x (fn_position f2) /\
     x (fn_position f1) == 0 /\
     x (fn_position f0) < x (fn_position f1) /\
     x (fn_position f1) < x (fn_position f2)).
Proof.
  intros Hi. split.
  - intros config k gap totalWidth. eexists. split; [apply child_placed, Hi|].
    split; reflexivity.
  - intros Hk.
    destruct (kids root) as [|c0 [|c1 [|c2 [|]]]] eqn:Hkids; try discriminate Hk.
    assert (H0 : kids root !! 0%nat = Some c0) by (rewrite Hkids; reflexivity).
    assert (H1 : kids root !! 1%nat = Some c1) by (rewrite Hkids; reflexivity).
    assert (H2 : kids root !! 2%nat = Some c2) by (rewrite Hkids; reflexivity).
    eexists _, _, _.
    split; [apply child_placed, H0|].
    split; [apply child_placed, H1|].
    split; [apply child_placed, H2|].
    rewrite Hkids. cbn [fn_position x length]. 
    repeat split; vm_compute; reflexivity.
Qed.

Lemma level1_children_x_witness :
  kids Examples.threeChildren !! 2%nat = Some (mkNode "c" (Some "attack") "C" None) /\
  exists fn,
    fst (AttackTreePage.layoutOf AttackTreePage.config Examples.threeChildren) !! 4%nat = Some fn /\
    fn_id fn = "c" /\ x (fn_position fn) == 675.
Proof.
  split; [reflexivity|].
  destruct (level1_children_x Examples.threeChildren 2 (mkNode "c" (Some "attack") "C" None)
              eq_refl) as [H _].
  destruct (H AttackTreePage.config) as (fn & Hfn & Hid & Hx).
  exists fn. split; [exact Hfn|]. split; [exact Hid|].
  rewrite Hx. vm_compute. reflexivity.
Defined.

End LayoutClaims.

(** ** The diagram export *)

Section ExportFacts.

Import Exporter.

Variable h : heap.

Lemma forEachChildNode_loop fuel' pid cs : forall s,
  (fix forEach (l : list loc) (s : ExportState) : outcome ExportState :=
     match l with
     | [] => Done s
     | child :: r =>
         c ← deref h child;
         s' ← processNode fuel' h child
                (mkExportState (mermaidContent s ++ [Arrow pid (o_id c)])
                               (processedNodeIds s));
         forEach r s'
     end) cs s
  = forEachChildNode fuel' h pid cs s.
Proof.
  induction cs as [|c cs IH]; intros s; [reflexivity|].
  cbn [forEachChildNode].
  destruct (deref h c) as [oc| |]; cbn; [|reflexivity..].
  destruct (processNode fuel' h c _) as [s'| |]; cbn; [apply IH|reflexivity..].
Qed.

Lemma processNode_unfold fuel' node st :
  processNode (S fuel') h node st =
  o ← deref h node;
  if bool_decide (o_id o ∈ processedNodeIds st) then Done st
  else forEachChildNode fuel' h (o_id o) (okids o)
         (mkExportState
            (mermaidContent st ++ [Decl (o_id o) (escapeLabel (o_label o))])
            ({[o_id o]} ∪ processedNodeIds st)).
Proof.
  cbn [processNode]. destruct (deref h node) as [o| |]; cbn; [|reflexivity..].
  case_bool_decide; [reflexivity|].
  unfold okids. destruct (o_children o) as [cs|]; cbn [default].
  - apply forEachChildNode_loop.
  - reflexivity.
Qed.

(** *** Statement lists *)

Lemma declIds_app d1 d2 : declIds (d1 ++ d2) = declIds d1 ++ declIds d2.
Proof. apply omap_app. Qed.

Lemma arrows_app d1 d2 : arrows (d1 ++ d2) = arrows d1 ++ arrows d2.
Proof. apply omap_app. Qed.

Lemma arrowsFrom_app i d1 d2 :
  arrowsFrom i (d1 ++ d2) = arrowsFrom i d1 ++ arrowsFrom i d2.
Proof. unfold arrowsFrom. rewrite arrows_app. apply filter_app. Qed.

Lemma elem_of_declIds i d : i ∈ declIds d <-> exists t, Decl i t ∈ d.
Proof.
  unfold declIds. rewrite list_elem_of_omap. split.
  - intros ([j t|a b] & Hin & Heq); [|discriminate].
    injection Heq as ->. exists t. exact Hin.
  - intros (t & Hin). exists (Decl i t). split; [exact Hin | reflexivity].
Qed.

Lemma elem_of_arrows a b d : (a, b) ∈ arrows d <-> Arrow a b ∈ d.
Proof.
  unfold arrows. rewrite list_elem_of_omap. split.
  - intros ([j t|a' b'] & Hin & Heq); [discriminate|].
    injection Heq as -> ->. exact Hin.
  - intros Hin. exists (Arrow a b). split; [exact Hin | reflexivity].
Qed.

(** In a list that declares no id twice, an id has one declaration, hence
    one text. *)
Lemma declIds_NoDup_text d :
  NoDup (declIds d) -> forall i t t', Decl i t ∈ d -> Decl i t' ∈ d -> t = t'.
Proof.
  induction d as [|s d IH]; intros Hnd i t t' H1 H2; [inversion H1|].
  destruct s as [j u|a b].
  - change (declIds (Decl j u :: d)) with (j :: declIds d) in Hnd.
    apply NoDup_cons in Hnd as [Hj Hnd].
    apply elem_of_cons in H1 as [H1|H1]; apply elem_of_cons in H2 as [H2|H2].
    + congruence.
    + injection H1 as -> ->. exfalso. apply Hj, elem_of_declIds. eauto.
    + injection H2 as -> ->. exfalso. apply Hj, elem_of_declIds. eauto.
    + apply (IH Hnd i t t' H1 H2).
  - change (declIds (Arrow a b :: d)) with (declIds d) in Hnd.
    apply elem_of_cons in H1 as [H1|H1]; [discriminate|].
    apply elem_of_cons in H2 as [H2|H2]; [discriminate|].
    apply (IH Hnd i t t' H1 H2).
Qed.

Lemma arrowsFrom_none i d :
  (forall a b, (a, b) ∈ arrows d -> a ≠ i) -> arrowsFrom i d = [].
Proof.
  intros Hsrc. unfold arrowsFrom.
  induction (arrows d) as [|[a b] l IH]; [reflexivity|].
  rewrite filter_cons_False.
  - apply IH. intros a' b' Hin. apply (Hsrc a' b'). right. exact Hin.
  - cbn. apply (Hsrc a b). left.
Qed.

Lemma arrowsFrom_cons_ne i a b d :
  a ≠ i -> arrowsFrom i (Arrow a b :: d) = arrowsFrom i d.
Proof.
  intros Hne. unfold arrowsFrom.
  change (arrows (Arrow a b :: d)) with ((a, b) :: arrows d).
  apply filter_cons_False. exact Hne.
Qed.

Lemma arrowsFrom_cons_eq i b d :
  arrowsFrom i (Arrow i b :: d) = (i, b) :: arrowsFrom i d.
Proof.
  unfold arrowsFrom.
  change (arrows (Arrow i b :: d)) with ((i, b) :: arrows d).
  apply filter_cons_True. reflexivity.
Qed.

(** *** Composition of runs *)

Lemma Grows_refl st : Grows h st st [].
Proof.
  split; cbn.
  - rewrite app_nil_r. reflexivity.
  - set_solver.
  - constructor.
  - intros i Hi. inversion Hi.
  - intros a b Hab. inversion Hab.
  - intros i Hi. inversion Hi.
Qed.

Lemma Grows_trans st0 st1 st2 d1 d2 :
  Grows h st0 st1 d1 -> Grows h st1 st2 d2 ->
  (forall a b, (a, b) ∈ arrows d1 -> a ∈ processedNodeIds st1) ->
  (forall a b, (a, b) ∈ arrows d2 -> a ∈ processedNodeIds st0 \/ a ∈ declIds d2) ->
  Grows h st0 st2 (d1 ++ d2).
Proof.
  intros [Hc1 Hv1 Hn1 Hf1 Ht1 He1] [Hc2 Hv2 Hn2 Hf2 Ht2 He2] Hs1 Hs2.
  assert (Hdisj : forall i, i ∈ declIds d1 -> i ∉ declIds d2).
  { intros i Hi1 Hi2. apply (Hf2 i Hi2). rewrite Hv1. set_solver. }
  split.
  - rewrite Hc2, Hc1, app_assoc. reflexivity.
  - rewrite Hv2, Hv1, declIds_app, list_to_set_app_L. set_solver.
  - rewrite declIds_app. apply NoDup_app. repeat split; assumption.
  - intros i. rewrite declIds_app, elem_of_app. intros [Hi|Hi].
    + apply Hf1, Hi.
    + intros Hin. apply (Hf2 i Hi). rewrite Hv1. set_solver.
  - intros a b. rewrite arrows_app, elem_of_app. intros [Hab|Hab].
    + rewrite Hv2. apply elem_of_union_l. apply (Ht1 a b Hab).
    + apply (Ht2 a b Hab).
  - intros i. rewrite declIds_app, elem_of_app. intros [Hi|Hi].
    + destruct (He1 i Hi) as (p & o & Hp & Hid & Hdecl & Harr).
      exists p, o. repeat split; [exact Hp | exact Hid | |].
      * apply elem_of_app. left. exact Hdecl.
      * rewrite arrowsFrom_app, Harr, (arrowsFrom_none i d2), app_nil_r; [reflexivity|].
        intros a b Hab ->. destruct (Hs2 i b Hab) as [Hold|Hnew].
        -- apply (Hf1 i Hi Hold).
        -- apply (Hdisj i Hi Hnew).
    + destruct (He2 i Hi) as (p & o & Hp & Hid & Hdecl & Harr).
      exists p, o. repeat split; [exact Hp | exact Hid | |].
      * apply elem_of_app. right. exact Hdecl.
      * rewrite arrowsFrom_app, Harr, (arrowsFrom_none i d1); [reflexivity|].
        intros a b Hab ->. apply (Hf2 i Hi). apply (Hs1 i b Hab).
Qed.

Lemma Grows_arrow st st' a b d :
  Grows h (mkExportState (mermaidContent st ++ [Arrow a b]) (processedNodeIds st)) st' d ->
  a ∈ processedNodeIds st -> b ∈ processedNodeIds st' ->
  Grows h st st' (Arrow a b :: d).
Proof.
  intros [Hc Hv Hn Hf Ht He] Ha Hb. cbn in *. split.
  - rewrite Hc, <- app_assoc. reflexivity.
  - exact Hv.
  - exact Hn.
  - exact Hf.
  - intros a' b'. cbn. rewrite elem_of_cons. intros [Heq|Hab].
    + injection Heq as -> ->. exact Hb.
    + apply (Ht a' b' Hab).
  - intros i Hi. destruct (He i Hi) as (p & o & Hp & Hid & Hdecl & Harr).
    exists p, o. repeat split; [exact Hp | exact Hid | right; exact Hdecl |].
    rewrite <- Harr. apply arrowsFrom_cons_ne.
    intros ->. apply (Hf i Hi Ha).
Qed.

Lemma Grows_decl st st' p o d :
  h !! p = Some o ->
  o_id o ∉ processedNodeIds st ->
  Grows h (mkExportState
             (mermaidContent st ++ [Decl (o_id o) (escapeLabel (o_label o))])
             ({[o_id o]} ∪ processedNodeIds st)) st' d ->
  arrowsFrom (o_id o) d = (fun t => (o_id o, t)) <$> idsOf h (okids o) ->
  Grows h st st' (Decl (o_id o) (escapeLabel (o_label o)) :: d).
Proof.
  intros Hp Hnew [Hc Hv Hn Hf Ht He] Harr. cbn in *. split.
  - rewrite Hc, <- app_assoc. reflexivity.
  - rewrite Hv. cbn. set_solver.
  - cbn. constructor; [|exact Hn]. intros Hin. apply (Hf _ Hin). set_solver.
  - intros i. cbn. rewrite elem_of_cons. intros [->|Hi]; [exact Hnew|].
    intros Hin. apply (Hf i Hi). set_solver.
  - exact Ht.
  - intros i. cbn. rewrite elem_of_cons. intros [->|Hi].
    + exists p, o. repeat split; [exact Hp | left | exact Harr].
    + destruct (He i Hi) as (p' & o' & Hp' & Hid & Hdecl & Harr').
      exists p', o'. repeat split; [exact Hp' | exact Hid | right; exact Hdecl | exact Harr'].
Qed.

(** *** The traversal *)

Lemma processNode_fuel_mono fuel : forall fuel' node st st',
  (fuel <= fuel')%nat ->
  processNode fuel h node st = Done st' -> processNode fuel' h node st = Done st'.
Proof.
  induction fuel as [|fuel IH]; intros fuel' node st st' Hle Hrun; [discriminate|].
  destruct fuel' as [|fuel']; [lia|].
  rewrite processNode_unfold in *.
  destruct (deref h node) as [o| |]; cbn in *; try discriminate.
  case_bool_decide; [exact Hrun|].
  revert Hrun. generalize (mkExportState
    (mermaidContent st ++ [Decl (o_id o) (escapeLabel (o_label o))])
    ({[o_id o]} ∪ processedNodeIds st)).
  induction (okids o) as [|c r IHr]; intros s Hrun; cbn in *; [exact Hrun|].
  destruct (deref h c) as [oc| |]; cbn in *; try discriminate.
  destruct (processNode fuel h c _) as [s1| |] eqn:E; cbn in *; try discriminate.
  rewrite (IH fuel' c _ s1 ltac:(lia) E). cbn. apply IHr, Hrun.
Qed.

Lemma findGoal_closed nodes :
  Forall (fun l => is_Some (h !! l)) nodes ->
  findGoal h nodes
  = Done (head (filter (fun l => o_type <$> h !! l = Some (Some "goal")) nodes)).
Proof.
  induction 1 as [|n r [o Ho] _ IH]; [reflexivity|].
  rewrite filter_cons. cbn [findGoal]. unfold deref. rewrite Ho.
  cbn [mbind outcome_bind fmap option_fmap option_map].
  case_bool_decide as Hg.
  - rewrite decide_True by (rewrite Hg; reflexivity). reflexivity.
  - rewrite decide_False by (intros [=]; contradiction). exact IH.
Qed.

Lemma rootOf_closed nodes :
  Forall (fun l => is_Some (h !! l)) nodes ->
  rootOf h nodes = Done (designatedRoot h nodes).
Proof.
  intros Hn. unfold rootOf, designatedRoot. rewrite (findGoal_closed _ Hn). cbn.
  destruct (filter _ nodes); reflexivity.
Qed.

Lemma designatedRoot_elem nodes r : designatedRoot h nodes = Some r -> r ∈ nodes.
Proof.
  unfold designatedRoot.
  destruct (filter _ nodes) as [|g l] eqn:Hf.
  - destruct nodes; [discriminate|]. intros [= ->]. left.
  - intros [= <-].
    assert (Hg : g ∈ filter (fun l => o_type <$> h !! l = Some (Some "goal")) nodes)
      by (rewrite Hf; left).
    apply list_elem_of_filter in Hg. apply Hg.
Qed.

Hypothesis Hclosed :
  map_Forall (fun _ o => Forall (fun l => is_Some (h !! l)) (okids o)) h.

Lemma heapIds_elem p o : h !! p = Some o -> o_id o ∈ heapIds h.
Proof.
  intros Hp. unfold heapIds. rewrite elem_of_list_to_set, list_elem_of_fmap.
  exists (p, o). split; [reflexivity|]. apply elem_of_map_to_list. exact Hp.
Qed.

Lemma forEachChildNode_spec fuel pid :
  callSpec h fuel ->
  forall cs s,
    Forall (fun l => is_Some (h !! l)) cs ->
    pid ∈ processedNodeIds s ->
    (size (heapIds h ∖ processedNodeIds s) < fuel)%nat ->
    exists s' delta,
      forEachChildNode fuel h pid cs s = Done s' /\
      Grows h s s' delta /\
      (forall a b, (a, b) ∈ arrows delta -> a = pid \/ a ∈ declIds delta) /\
      arrowsFrom pid delta = (fun t => (pid, t)) <$> idsOf h cs.
Proof.
  intros Hcall. induction cs as [|child r IH]; intros s Hcs Hpid Hsz.
  - exists s, []. split; [reflexivity|]. split; [apply Grows_refl|].
    split; [intros a b Hab; inversion Hab | reflexivity].
  - inversion Hcs as [|? ? [oc Hoc] Hr]; subst.
    cbn [forEachChildNode]. unfold deref at 1. rewrite Hoc. cbn.
    destruct (Hcall child oc
                (mkExportState (mermaidContent s ++ [Arrow pid (o_id oc)])
                               (processedNodeIds s)) Hoc Hsz)
      as (s1 & d1 & Hrun1 & Hg1 & Hin1 & Hsrc1).
    rewrite Hrun1. cbn.
    pose proof (grows_visited _ _ _ _ Hg1) as Hv1. cbn in Hv1.
    destruct (IH s1 Hr) as (s2 & d2 & Hrun2 & Hg2 & Hsrc2 & Harr2).
    { rewrite Hv1. set_solver. }
    { eapply Nat.le_lt_trans; [|exact Hsz]. apply subseteq_size.
      rewrite Hv1. set_solver. }
    pose proof (grows_visited _ _ _ _ Hg2) as Hv2.
    exists s2, (Arrow pid (o_id oc) :: d1 ++ d2). split; [exact Hrun2|]. split; [|split].
    + apply Grows_arrow; [|exact Hpid|rewrite Hv2; set_solver].
      apply (Grows_trans _ s1 _); [exact Hg1 | exact Hg2 | |].
      * intros a b Hab. rewrite Hv1. apply elem_of_union_r, elem_of_list_to_set.
        apply (Hsrc1 a b Hab).
      * intros a b Hab. destruct (Hsrc2 a b Hab) as [->|Hnew]; [left; exact Hpid | right; exact Hnew].
    + intros a b. cbn. rewrite elem_of_cons, arrows_app, declIds_app, !elem_of_app.
      intros [Heq|[Hab|Hab]].
      * injection Heq as -> ->. left. reflexivity.
      * right. left. apply (Hsrc1 a b Hab).
      * destruct (Hsrc2 a b Hab) as [->|Hnew]; [left; reflexivity | right; right; exact Hnew].
    + rewrite arrowsFrom_cons_eq, arrowsFrom_app, Harr2, (arrowsFrom_none pid d1).
      * unfold idsOf. cbn [omap]. rewrite Hoc. reflexivity.
      * intros a b Hab ->.
        apply (grows_fresh _ _ _ _ Hg1 pid (Hsrc1 pid b Hab)). exact Hpid.
Qed.

Lemma processNode_spec fuel : callSpec h fuel.
Proof.
  induction fuel as [|fuel IH]; intros node o st Hnode Hsz; [lia|].
  rewrite processNode_unfold. unfold deref. rewrite Hnode. cbn.
  case_bool_decide as Hvis.
  - exists st, []. split; [reflexivity|]. split; [apply Grows_refl|].
    split; [exact Hvis|]. intros a b Hab. inversion Hab.
  - pose proof (heapIds_elem node o Hnode) as Hin.
    destruct (forEachChildNode_spec fuel (o_id o) IH (okids o)
                (mkExportState
                   (mermaidContent st ++ [Decl (o_id o) (escapeLabel (o_label o))])
                   ({[o_id o]} ∪ processedNodeIds st)))
      as (s' & delta & Hrun & Hg & Hsrc & Harr).
    { apply (Hclosed node o Hnode). }
    { cbn. set_solver. }
    { cbn.
      assert (size (heapIds h ∖ ({[o_id o]} ∪ processedNodeIds st))
              < size (heapIds h ∖ processedNodeIds st))%nat
        by (apply subset_size; set_solver).
      lia. }
    pose proof (grows_visited _ _ _ _ Hg) as Hv. cbn in Hv.
    exists s', (Decl (o_id o) (escapeLabel (o_label o)) :: delta).
    split; [exact Hrun|]. split; [|split].
    + apply (Grows_decl st s' node o); assumption.
    + rewrite Hv. set_solver.
    + intros a b Hab. change (a ∈ o_id o :: declIds delta). rewrite elem_of_cons.
      destruct (Hsrc a b Hab) as [->|Hnew]; [left; reflexivity | right; exact Hnew].
Qed.

(** A run from the initial state with the budget [enoughFuel]. *)
Lemma processNode_initial root o :
  h !! root = Some o ->
  exists st,
    processNode (enoughFuel h) h root initialState = Done st /\
    Grows h initialState st (mermaidContent st) /\
    (forall a b, (a, b) ∈ arrows (mermaidContent st) -> a ∈ declIds (mermaidContent st)).
Proof.
  intros Hroot.
  destruct (processNode_spec (enoughFuel h) root o initialState Hroot)
    as (st & delta & Hrun & Hg & _ & Hsrc).
  { unfold enoughFuel. cbn. rewrite difference_empty_L. lia. }
  pose proof (grows_content _ _ _ _ Hg) as Hc. cbn in Hc. subst delta.
  exists st. split; [exact Hrun|]. split; [exact Hg | exact Hsrc].
Qed.

Lemma uniqueIds_inj p p' o o' :
  uniqueIds h -> h !! p = Some o -> h !! p' = Some o' -> o_id o = o_id o' ->
  p = p' /\ o = o'.
Proof.
  unfold uniqueIds. intros Hu Hp Hp' Hid.
  apply elem_of_map_to_list in Hp, Hp'.
  assert (Hgen : forall (l : list (loc * NodeObj)) a b,
            NoDup ((fun q => o_id q.2) <$> l) -> a ∈ l -> b ∈ l ->
            o_id a.2 = o_id b.2 -> a = b).
  { clear. induction l as [|q l IH]; intros a b Hnd Ha Hb Hab; [inversion Ha|].
    cbn in Hnd. apply NoDup_cons in Hnd as [Hq Hnd].
    apply elem_of_cons in Ha as [->|Ha]; apply elem_of_cons in Hb as [->|Hb].
    - reflexivity.
    - exfalso. apply Hq. rewrite Hab. apply list_elem_of_fmap. exists b. split; [reflexivity|exact Hb].
    - exfalso. apply Hq. rewrite <- Hab. apply list_elem_of_fmap. exists a. split; [reflexivity|exact Ha].
    - apply IH; assumption. }
  specialize (Hgen _ (p, o) (p', o') Hu Hp Hp' Hid).
  injection Hgen as -> ->. split; reflexivity.
Qed.

End ExportFacts.

Section ExportClaims.

Import Exporter.

(** Every run on a closed store ends, with any budget from [enoughFuel]
    on, in the same statement list. *)
Lemma exportStmts_run (h : heap) (nodes : list loc) :
  closed h nodes ->
  exists st,
    (forall fuel, (enoughFuel h <= fuel)%nat ->
       exportStmts fuel h nodes = Done (mermaidContent st)) /\
    Grows h initialState st (mermaidContent st) /\
    (forall a b, (a, b) ∈ arrows (mermaidContent st) -> a ∈ declIds (mermaidContent st)).
Proof.
  intros [Hnodes Hheap]. unfold exportStmts.
  rewrite (rootOf_closed h nodes Hnodes). cbn.
  destruct (designatedRoot h nodes) as [r|] eqn:Hr.
  - apply designatedRoot_elem in Hr.
    rewrite Forall_forall in Hnodes. destruct (Hnodes r Hr) as [o Ho].
    destruct (processNode_initial h Hheap r o Ho) as (st & Hrun & Hg & Hsrc).
    exists st. split; [|split; assumption].
    intros fuel Hle. rewrite (processNode_fuel_mono h _ _ _ _ _ Hle Hrun). reflexivity.
  - exists initialState. split; [reflexivity|]. split; [apply Grows_refl|].
    intros a b Hab. inversion Hab.
Qed.

(** C7. On every store whose references are all valid, shared node
    objects and reference cycles included, the export returns: there is
    one statement list that every run with a sufficient budget returns, so
    repeated runs give the same statements and the same text; the text is
    the rendering of that list; and in that list no id is declared
    twice. *)
Theorem export_terminates_without_duplicate_declarations (h : heap) (nodes : list loc) :
  closed h nodes ->
  exists stmts,
    (forall fuel, (enoughFuel h <= fuel)%nat ->
       exportStmts fuel h nodes = Done stmts /\
       generateSimplifiedMermaidDiagram fuel h nodes = Done (render stmts)) /\
    NoDup (declIds stmts) /\
    (forall i t t', Decl i t ∈ stmts -> Decl i t' ∈ stmts -> t = t').
Proof.
  intros Hc. destruct (exportStmts_run h nodes Hc) as (st & Hrun & Hg & _).
  exists (mermaidContent st).
  pose proof (grows_nodup _ _ _ _ Hg) as Hnd.
  split; [|split; [exact Hnd|]].
  - intros fuel Hle. unfold generateSimplifiedMermaidDiagram.
    rewrite (Hrun fuel Hle). split; reflexivity.
  - intros i t t'. apply declIds_NoDup_text. exact Hnd.
Qed.


Lemma export_terminates_without_duplicate_declarations_witness :
  exists stmts,
    (forall fuel, (enoughFuel Examples.diamond <= fuel)%nat ->
       exportStmts fuel Examples.diamond [0%nat] = Done stmts /\
       generateSimplifiedMermaidDiagram fuel Examples.diamond [0%nat]
       = Done (render stmts)) /\
    NoDup (declIds stmts) /\
    (forall i t t', Decl i t ∈ stmts -> Decl i t' ∈ stmts -> t = t').
Proof.
  apply (export_terminates_without_duplicate_declarations Examples.diamond [0%nat]).
  by_evaluation.
Defined.


End ExportClaims.

(** ** Root selection, node kinds and the single-node tree *)

Section RootAndKindClaims.

Import LayoutSpec Exporter.

Lemma find_goal_filter (l : list AttackTreeNode) :
  find is_goal l = head (filter (fun n => type n = Some "goal") l).
Proof.
  induction l as [|a l IH]; [reflexivity|].
  cbn [find]. rewrite filter_cons. unfold is_goal at 1.
  case_bool_decide as Hg.
  - rewrite decide_True by exact Hg. reflexivity.
  - rewrite decide_False by exact Hg. exact IH.
Qed.

Lemma reportView_rootOf (l : list AttackTreeNode) :
  ReportView.rootOf l = LayoutSpec.designatedRoot l.
Proof.
  unfold ReportView.rootOf, LayoutSpec.designatedRoot. rewrite find_goal_filter.
  destruct (filter _ l); reflexivity.
Qed.

Lemma forEachChildNode_retype (f : NodeObj -> option string) (h : heap) (fuel : nat)
    (pid : string) :
  (forall node st,
     processNode fuel (retype f <$> h) node st = processNode fuel h node st) ->
  forall cs s,
    forEachChildNode fuel (retype f <$> h) pid cs s = forEachChildNode fuel h pid cs s.
Proof.
  intros IH. induction cs as [|c r IHr]; intros s; [reflexivity|].
  cbn [forEachChildNode]. unfold deref. rewrite lookup_fmap.
  destruct (h !! c) as [oc|]; cbn; [|reflexivity].
  rewrite IH. destruct (processNode fuel h c _) as [s1| |]; cbn; [apply IHr|reflexivity..].
Qed.

Lemma processNode_retype (f : NodeObj -> option string) (h : heap) (fuel : nat) :
  forall node st,
    processNode fuel (retype f <$> h) node st = processNode fuel h node st.
Proof.
  induction fuel as [|fuel IH]; intros node st; [reflexivity|].
  rewrite !processNode_unfold. unfold deref. rewrite lookup_fmap.
  destruct (h !! node) as [o|]; cbn; [|reflexivity].
  case_bool_decide; [reflexivity|].
  apply (forEachChildNode_retype f h fuel (o_id o) IH).
Qed.

(** The Attack Tree page lays out the first node of the list and publishes
    the result when that node has a child. *)
Lemma page_lays_out_first (n : AttackTreeNode) (rest : list AttackTreeNode)
    (view : ViewState) :
  AttackTreePage.processAttackTreeData (n :: rest) view
  = match kids n with
    | [] => view
    | _ :: _ =>
        mkViewState (fst (AttackTreePage.layoutOf AttackTreePage.config n))
                    (snd (AttackTreePage.layoutOf AttackTreePage.config n))
    end.
Proof.
  unfold AttackTreePage.processAttackTreeData, AttackTreePage.layoutOf. cbn [head fst snd].
  fold (placed AttackTreePage.config n 0 0 1 0).
  pose proof (placed_length AttackTreePage.config n 0 0 1 0) as Hn.
  pose proof (tree_size_pos n) as Hs.
  rewrite (createEdges_nil_unfold n).
  destruct (kids n) as [|c cs].
  - cbn [mbind list_bind length]. rewrite andb_false_r. reflexivity.
  - destruct (placed AttackTreePage.config n 0 0 1 0) as [|fn fns]; [cbn in Hn; lia|].
    reflexivity.
Qed.

(** C6 (as the code has it). The export and the layout of the report view
    start from the designated root: the first node of kind goal, or the
    first node when no node is of kind goal.  The layout of the Attack
    Tree page starts from the first node of the list whatever its kind:
    what it publishes is the layout of that node (when the node has a
    child; otherwise it publishes nothing), and the rest of the list has
    no influence.  Each of the three looks at nothing but the tree under
    its root. *)
Theorem root_selection (h : heap) (nodes : list loc) :
  closed h nodes ->
  (forall fuel,
     exportStmts fuel h nodes
     = match Exporter.designatedRoot h nodes with
       | Some rootNode =>
           st ← processNode fuel h rootNode initialState; Done (mermaidContent st)
       | None => Done []
       end) /\
  (forall treeNodes view,
     ReportView.processAttackTreeData treeNodes view
     = match LayoutSpec.designatedRoot treeNodes with
       | Some rootNode =>
           mkViewState (fst (ReportView.layoutOf ReportView.spacingConfig rootNode))
                       (snd (ReportView.layoutOf ReportView.spacingConfig rootNode))
       | None => view
       end) /\
  (forall n rest view,
     is_Some (LayoutSpec.designatedRoot (n :: rest)) /\
     AttackTreePage.processAttackTreeData (n :: rest) view
     = match kids n with
       | [] => view
       | _ :: _ =>
           mkViewState (fst (AttackTreePage.layoutOf AttackTreePage.config n))
                       (snd (AttackTreePage.layoutOf AttackTreePage.config n))
       end /\
     AttackTreePage.processAttackTreeData (n :: rest) view
     = AttackTreePage.processAttackTreeData [n] view).
Proof.
  intros [Hnodes _]. split; [|split].
  - intros fuel. unfold exportStmts. rewrite (rootOf_closed h nodes Hnodes). reflexivity.
  - intros treeNodes view. unfold ReportView.processAttackTreeData.
    rewrite reportView_rootOf. destruct (LayoutSpec.designatedRoot treeNodes); reflexivity.
  - intros n rest view. split; [|split; [apply page_lays_out_first | reflexivity]].
    unfold LayoutSpec.designatedRoot. destruct (filter _ (n :: rest)); eauto.
Qed.

Lemma root_selection_witness :
  (forall fuel,
     exportStmts fuel Examples.oddFirst [0%nat; 1%nat]
     = (st ← processNode fuel Examples.oddFirst 1%nat initialState;
        Done (mermaidContent st))) /\
  (forall view,
     AttackTreePage.processAttackTreeData Examples.attackFirst view
     = mkViewState
         (fst (AttackTreePage.layoutOf AttackTreePage.config Examples.attackNode))
         (snd (AttackTreePage.layoutOf AttackTreePage.config Examples.attackNode))).
Proof.
  destruct (root_selection Examples.oddFirst [0%nat; 1%nat]) as (Hexp & _ & Hpage).
  { by_evaluation. }
  split.
  - exact Hexp.
  - intros view.
    destruct (Hpage Examples.attackNode [Examples.goalNode] view) as (_ & Heq & _).
    exact Heq.
Defined.

(** C6, as stated, fails on the Attack Tree page: with an attack node
    before the goal node the designated root is the goal node, yet the
    page lays out the tree of the attack node. *)
Lemma root_selection_counterexample :
  LayoutSpec.designatedRoot Examples.attackFirst = Some Examples.goalNode /\
  id <$> subtrees Examples.goalNode = ["g"; "y"] /\
  fn_id <$> nodes (AttackTreePage.processAttackTreeData Examples.attackFirst
                     Examples.emptyView)
  = ["a"; "x"].
Proof. repeat split. Qed.

(** The [find] of the root selections stops at the first entry whose type
    is the string goal and passes over every other entry. *)
Lemma filter_none {A : Type} (P : A -> Prop) `{forall a, Decision (P a)} (l : list A) :
  Forall (fun a => ~ P a) l -> filter P l = [].
Proof.
  induction 1 as [|a l Ha _ IH]; [reflexivity|].
  rewrite filter_cons, decide_False by exact Ha. exact IH.
Qed.

Lemma filter_first {A : Type} (P : A -> Prop) `{forall a, Decision (P a)}
    (before after : list A) (g : A) :
  Forall (fun a => ~ P a) before -> P g ->
  exists l, filter P (before ++ g :: after) = g :: l.
Proof.
  intros Hb Hg. rewrite filter_app, (filter_none P before Hb), filter_cons.
  rewrite decide_True by exact Hg. eexists. reflexivity.
Qed.

(** C8 (as the code has it). A positioned node gets the kind goal when
    the [type] of its tree node is missing or empty; every other [type]
    string is handed on unchanged.  The traversal of the export never
    reads [type].  For the selection of the root, by the export and by
    the report view, only the string goal counts: entries of any other
    type, known or not, that stand before the first entry of type goal
    are passed over, and when no entry has the type goal the first entry
    is the root. *)
Theorem kind_defaults (config : SpacingConfig) (root : AttackTreeNode) :
  Forall2
    (fun fn n =>
       (type n = None \/ type n = Some EmptyString -> fn_type fn = "goal") /\
       (forall s, type n = Some s -> s ≠ EmptyString -> fn_type fn = s))
    (fst (AttackTreePage.layoutOf config root)) (subtrees root) /\
  (forall f fuel h node st,
     processNode fuel (retype f <$> h) node st = processNode fuel h node st) /\
  (forall h before g after fuel,
     closed h (before ++ g :: after) ->
     Forall (fun l => o_type <$> h !! l ≠ Some (Some "goal")) before ->
     o_type <$> h !! g = Some (Some "goal") ->
     rootOf h (before ++ g :: after) = Done (Some g) /\
     exportStmts fuel h (before ++ g :: after)
     = (st ← processNode fuel h g initialState; Done (mermaidContent st))) /\
  (forall h first rest fuel,
     closed h (first :: rest) ->
     Forall (fun l => o_type <$> h !! l ≠ Some (Some "goal")) (first :: rest) ->
     rootOf h (first :: rest) = Done (Some first) /\
     exportStmts fuel h (first :: rest)
     = (st ← processNode fuel h first initialState; Done (mermaidContent st))) /\
  (forall before g after,
     Forall (fun n => type n ≠ Some "goal") before -> type g = Some "goal" ->
     ReportView.rootOf (before ++ g :: after) = Some g) /\
  (forall first rest,
     Forall (fun n => type n ≠ Some "goal") (first :: rest) ->
     ReportView.rootOf (first :: rest) = Some first).
Proof.
  split; [|split; [|split; [|split; [|split]]]].
  - unfold AttackTreePage.layoutOf. cbn [fst]. fold (placed config root 0 0 1 0).
    rewrite <- (levels_fst root 0).
    apply Forall2_fmap_r.
    eapply Forall2_impl; [apply placed_levels|].
    intros fn md (_ & Hty & _). rewrite Hty. split.
    + intros [-> | ->]; reflexivity.
    + intros s -> Hs. cbn. rewrite bool_decide_eq_false_2 by exact Hs. reflexivity.
  - intros f fuel h. apply processNode_retype.
  - intros h before g after fuel [Hnodes _] Hb Hg.
    assert (Hroot : rootOf h (before ++ g :: after) = Done (Some g)).
    { rewrite (rootOf_closed h _ Hnodes). unfold Exporter.designatedRoot.
      destruct (filter_first (fun l => o_type <$> h !! l = Some (Some "goal"))
                  before after g Hb Hg) as [l ->].
      reflexivity. }
    split; [exact Hroot|]. unfold exportStmts. rewrite Hroot. reflexivity.
  - intros h first rest fuel [Hnodes _] Hall.
    assert (Hroot : rootOf h (first :: rest) = Done (Some first)).
    { rewrite (rootOf_closed h _ Hnodes). unfold Exporter.designatedRoot.
      rewrite (filter_none (fun l => o_type <$> h !! l = Some (Some "goal")) _ Hall).
      reflexivity. }
    split; [exact Hroot|]. unfold exportStmts. rewrite Hroot. reflexivity.
  - intros before g after Hb Hg. rewrite reportView_rootOf.
    unfold LayoutSpec.designatedRoot.
    destruct (filter_first (fun n => type n = Some "goal") before after g Hb Hg) as [l ->].
    reflexivity.
  - intros first rest Hall. rewrite reportView_rootOf.
    unfold LayoutSpec.designatedRoot.
    rewrite (filter_none (fun n => type n = Some "goal") _ Hall). reflexivity.
Qed.

Lemma kind_defaults_witness :
  (exists fn,
     head (fst (AttackTreePage.layoutOf AttackTreePage.config
                  (mkNode "n" None "N" None))) = Some fn /\
     fn_type fn = "goal") /\
  rootOf Examples.oddFirst [0%nat; 1%nat] = Done (Some 1%nat) /\
  ReportView.rootOf [Examples.oddKind; Examples.goalNode] = Some Examples.goalNode.
Proof.
  destruct (kind_defaults AttackTreePage.config (mkNode "n" None "N" None))
    as (H & _ & Hexp & _ & Hview & _).
  split; [|split].
  - cbn in H. inversion H as [|? ? ? ? [Hmissing _] _].
    eexists. split; [reflexivity|]. apply Hmissing. left. reflexivity.
  - apply (Hexp Examples.oddFirst [0%nat] 1%nat [] 0%nat).
    + by_evaluation.
    + by_evaluation.
    + reflexivity.
  - apply (Hview [Examples.oddKind] Examples.goalNode []).
    + by_evaluation.
    + reflexivity.
Defined.

(** C8, as stated, fails: a node of kind [threat] is positioned with the
    kind [threat], not goal; and in the export a leading node of kind
    [threat] is passed over for the goal node behind it, whereas the same
    node retyped to goal is the root. *)
Lemma kind_defaults_counterexample :
  fn_type <$> fst (AttackTreePage.layoutOf AttackTreePage.config Examples.oddKind)
  = ["threat"] /\
  exportStmts 2 Examples.oddFirst [0%nat; 1%nat] = Done [Decl "g" "G"] /\
  exportStmts 2 Examples.oddFirstAsGoal [0%nat; 1%nat] = Done [Decl "t" "T"].
Proof. repeat split; vm_compute; reflexivity. Qed.

(** C9 (as the code has it). For a tree that consists of its root the two
    layout passes compute one positioned node and no edge.  The report
    view hands these to the adapter; the Attack Tree page, which
    publishes only when there is at least one edge, leaves the view as it
    was.  The export consists of the one declaration of the root. *)
Theorem single_node_tree (n : AttackTreeNode) (h : heap) (r : loc) (o : NodeObj) :
  kids n = [] -> h !! r = Some o -> okids o = [] ->
  (forall config,
     length (fst (AttackTreePage.layoutOf config n)) = 1%nat /\
     snd (AttackTreePage.layoutOf config n) = []) /\
  (forall view, AttackTreePage.processAttackTreeData [n] view = view) /\
  (forall view,
     length (nodes (ReportView.processAttackTreeData [n] view)) = 1%nat /\
     edges (ReportView.processAttackTreeData [n] view) = []) /\
  (forall fuel, (1 <= fuel)%nat ->
     exportStmts fuel h [r] = Done [Decl (o_id o) (escapeLabel (o_label o))] /\
     generateSimplifiedMermaidDiagram fuel h [r]
     = Done ("graph TD" +:+ newline +:+
             "    " +:+ o_id o +:+ "[" +:+ String dquote (escapeLabel (o_label o))
             +:+ String dquote "]" +:+ newline)).
Proof.
  intros Hn Hr Ho.
  assert (Hedges : createEdges n [] = [])
    by (rewrite createEdges_nil_unfold, Hn; reflexivity).
  assert (Hsize : tree_size n = 1%nat)
    by (rewrite tree_size_unfold, Hn; reflexivity).
  split; [|split; [|split]].
  - intros config. unfold AttackTreePage.layoutOf. cbn [fst snd].
    fold (placed config n 0 0 1 0). rewrite placed_length. split; assumption.
  - intros view. unfold AttackTreePage.processAttackTreeData, AttackTreePage.layoutOf.
    cbn [head]. rewrite Hedges. cbn [length]. rewrite andb_false_r. reflexivity.
  - intros view. unfold ReportView.processAttackTreeData. rewrite reportView_rootOf.
    assert (Hroot : LayoutSpec.designatedRoot [n] = Some n).
    { unfold LayoutSpec.designatedRoot. rewrite filter_cons.
      destruct (decide _); reflexivity. }
    rewrite Hroot. unfold ReportView.layoutOf. cbn [nodes edges].
    split; [|exact Hedges].
    destruct n as [i t l [[|c cs]|]]; try discriminate Hn; reflexivity.
  - intros fuel Hfuel. destruct fuel as [|fuel]; [lia|].
    assert (Hrun : processNode (S fuel) h r initialState
                   = Done (mkExportState [Decl (o_id o) (escapeLabel (o_label o))]
                             ({[o_id o]} ∪ ∅))).
    { rewrite processNode_unfold. unfold deref. rewrite Hr. cbn.
      rewrite bool_decide_eq_false_2 by set_solver. rewrite Ho. reflexivity. }
    assert (Hstmts : exportStmts (S fuel) h [r]
                     = Done [Decl (o_id o) (escapeLabel (o_label o))]).
    { unfold exportStmts, rootOf. cbn [findGoal]. unfold deref. rewrite Hr.
      cbn [mbind outcome_bind].
      case_bool_decide; cbn [mbind outcome_bind head]; rewrite Hrun; reflexivity. }
    split; [exact Hstmts|].
    unfold generateSimplifiedMermaidDiagram. rewrite Hstmts. reflexivity.
Qed.

Lemma single_node_tree_witness :
  (forall view,
     AttackTreePage.processAttackTreeData [Examples.single] view = view) /\
  (forall fuel, (1 <= fuel)%nat ->
     exportStmts fuel Examples.lone [0%nat] = Done [Decl "g" "Goal"]).
Proof.
  destruct (single_node_tree Examples.single Examples.lone 0%nat
              (mkNodeObj "g" (Some "goal") "Goal" None)
              eq_refl eq_refl eq_refl) as (_ & Hpage & _ & Hexp).
  split; [exact Hpage|]. intros fuel Hfuel. apply (Hexp fuel Hfuel).
Defined.

(** C9, as stated, fails on the Attack Tree page: for a single-node tree
    nothing reaches the adapter. *)
Lemma single_node_tree_counterexample :
  length (fst (AttackTreePage.layoutOf AttackTreePage.config Examples.single)) = 1%nat /\
  nodes (AttackTreePage.processAttackTreeData [Examples.single] Examples.emptyView) = [].
Proof. split; reflexivity. Qed.

(** The scenario of the specification: four positioned nodes and three
    edges on both views; four declarations, the goal's first, and three
    arrows in the export. *)
Example scenario_layout :
  let view := AttackTreePage.processAttackTreeData [Examples.scenario] Examples.emptyView in
  fn_id <$> nodes view = ["goal"; "phish"; "weak"; "exploit"] /\
  edge_id <$> edges view = ["goal-phish"; "phish-weak"; "goal-exploit"] /\
  ReportView.processAttackTreeData [Examples.scenario] Examples.emptyView = view.
Proof. repeat split. Qed.

Example scenario_export :
  exportStmts (enoughFuel Examples.scenarioStore) Examples.scenarioStore [0%nat]
  = Done [Decl "goal" "Compromise System"; Arrow "goal" "phish";
          Decl "phish" "Phish Admin"; Arrow "phish" "weak";
          Decl "weak" "Weak Password Policy"; Arrow "goal" "exploit";
          Decl "exploit" "Exploit Web Vuln"].
Proof. vm_compute. reflexivity. Qed.

End RootAndKindClaims.

(** ** Envelope handling *)

Section NormalizerClaims.

Import Normalizer.

(** C1 (as the code has it). [fetchData] always ends in one of its two
    results, never in an exception.  It takes the node list from
    [result.result.attack_tree.nodes], else from
    [result.attack_tree.nodes], else from [result.nodes], the first of
    these that holds a truthy value; failing all three it asks the service
    and accepts [result.result.attack_tree.nodes] of the reply only.  In
    every other case it shows an error. *)
Theorem fetchData_shapes (now : string) (data : json) (service : ServiceReply) :
  match fetchData now data service with
  | Loaded processedData treeNodes =>
      truthy treeNodes = true /\
      attack_tree_nodes processedData = treeNodes /\
      (treeNodes = at_result_result_attack_tree_nodes data \/
       (truthy (at_result_result_attack_tree_nodes data) = false /\
        treeNodes = at_result_attack_tree_nodes data) \/
       (truthy (at_result_result_attack_tree_nodes data) = false /\
        truthy (at_result_attack_tree_nodes data) = false /\
        treeNodes = at_result_nodes data) \/
       (truthy (at_result_result_attack_tree_nodes data) = false /\
        truthy (at_result_attack_tree_nodes data) = false /\
        truthy (at_result_nodes data) = false /\
        exists body, service = Resolved body /\
                     treeNodes = at_result_result_attack_tree_nodes body))
  | ErrorShown message =>
      truthy (at_result_result_attack_tree_nodes data) = false /\
      truthy (at_result_attack_tree_nodes data) = false /\
      truthy (at_result_nodes data) = false /\
      (service = Rejected message \/
       exists body, service = Resolved body /\
                    truthy (at_result_result_attack_tree_nodes body) = false /\
                    message = "Invalid attack tree data format received")
  end.
Proof.
  unfold fetchData.
  fold (at_result_result_attack_tree_nodes data).
  fold (at_result_attack_tree_nodes data).
  fold (at_result_nodes data).
  destruct (truthy (at_result_result_attack_tree_nodes data)) eqn:H1.
  { split; [exact H1|]. split; [reflexivity|]. left. reflexivity. }
  destruct (truthy (at_result_attack_tree_nodes data)) eqn:H2.
  { split; [exact H2|]. split; [reflexivity|]. right. left. split; reflexivity. }
  destruct (truthy (at_result_nodes data)) eqn:H3.
  { split; [exact H3|]. split; [reflexivity|]. right. right. left. repeat split. }
  destruct service as [message|body].
  { repeat split. left. reflexivity. }
  fold (at_result_result_attack_tree_nodes body).
  destruct (truthy (at_result_result_attack_tree_nodes body)) eqn:H4.
  - split; [exact H4|]. split; [reflexivity|]. right. right. right.
    repeat split. exists body. split; reflexivity.
  - repeat split. right. exists body. repeat split. exact H4.
Qed.

(** C1, as stated, fails: an envelope that holds the node list at the top
    level, or at [result.result.nodes], is not recognised and ends in the
    error, although the list is there and truthy. *)
Lemma fetchData_shapes_counterexample :
  (at_nodes Examples.topLevel = Some Examples.nodeList /\
   fetchData "t" Examples.topLevel (Resolved Examples.topLevel)
   = ErrorShown "Invalid attack tree data format received") /\
  (at_result_result_nodes Examples.resultResult = Some Examples.nodeList /\
   fetchData "t" Examples.resultResult (Resolved Examples.resultResult)
   = ErrorShown "Invalid attack tree data format received").
Proof. repeat split. Qed.

End NormalizerClaims.

(** * Further properties of the layout *)

Section LayoutMoreClaims.

Import LayoutSpec LayoutMore.
Local Open Scope Q_scope.

(** *** Edges against nodes *)

Lemma createEdges_targets n :
  target <$> createEdges n [] = id <$> (kids n ≫= subtrees).
Proof.
  induction n as [n IH] using AttackTreeNode_ind'.
  rewrite createEdges_nil_unfold.
  induction IH as [|c cs Hc _ IHcs]; [reflexivity|].
  cbn. rewrite !fmap_app, IHcs, Hc, (subtrees_unfold c). reflexivity.
Qed.

Lemma createEdges_sources n :
  Forall (fun e => source e ∈ id <$> subtrees n) (createEdges n []).
Proof.
  apply Forall_forall. intros e He.
  assert (Hp : (source e, target e) ∈ parentChildPairs n).
  { rewrite <- createEdges_pairs. apply list_elem_of_fmap. exists e. split; [reflexivity|exact He]. }
  unfold parentChildPairs in Hp. apply list_elem_of_bind in Hp as (p & Hpc & Hp).
  apply list_elem_of_fmap in Hpc as (c & Heq & _). injection Heq as -> _.
  apply list_elem_of_fmap. exists p. split; [reflexivity|exact Hp].
Qed.

(** X3. The edges fit the nodes: the k-th edge ends at the (k+1)-th
    positioned node, so every node but the root is the target of exactly
    one edge, and every edge starts at a positioned node. *)
Theorem edges_fit_nodes (config : SpacingConfig) (root : AttackTreeNode) :
  let '(flowNodes, flowEdges) := AttackTreePage.layoutOf config root in
  target <$> flowEdges = tail (fn_id <$> flowNodes) /\
  Forall (fun e => source e ∈ fn_id <$> flowNodes /\ target e ∈ fn_id <$> flowNodes)
    flowEdges.
Proof.
  unfold AttackTreePage.layoutOf. fold (placed config root 0 0 1 0).
  rewrite placed_ids.
  assert (Ht : target <$> createEdges root [] = tail (id <$> subtrees root)).
  { rewrite createEdges_targets, (subtrees_unfold root). reflexivity. }
  split; [exact Ht|].
  pose proof (createEdges_sources root) as Hs. rewrite Forall_forall in Hs.
  apply Forall_forall. intros e He. split; [apply Hs, He|].
  assert (Hin : target e ∈ target <$> createEdges root [])
    by (apply list_elem_of_fmap; exists e; split; [reflexivity|exact He]).
  rewrite Ht in Hin. rewrite (subtrees_unfold root). cbn. right.
  rewrite (subtrees_unfold root) in Hin. exact Hin.
Qed.

(** *** The position map *)

Section PositionMap.

Variable config : SpacingConfig.

Lemma forEachChild_nodePositions cs level k X :
  Forall (fun c => forall lv pos ts px acc,
            nodePositions (AttackTreePage.createNodes config c lv pos ts px acc)
            = recordAll (nodePositions acc) (placed config c lv pos ts px)) cs ->
  forall j acc,
    nodePositions (forEachChild config cs level j k X acc)
    = recordAll (nodePositions acc)
        (concat (imap (fun i c => placed config c level (j + i) k X) cs)).
Proof.
  induction 1 as [|c cs Hc _ IH]; intros j acc; cbn [forEachChild]; [reflexivity|].
  rewrite IH, Hc, imap_cons. cbn [concat]. unfold recordAll. rewrite foldl_app.
  rewrite Nat.add_0_r. do 2 f_equal. apply imap_ext. intros i c' _. cbn. f_equal. lia.
Qed.

Lemma createNodes_nodePositions n : forall level position totalSiblings parentX acc,
  nodePositions (AttackTreePage.createNodes config n level position totalSiblings parentX acc)
  = recordAll (nodePositions acc) (placed config n level position totalSiblings parentX).
Proof.
  induction n as [n IH] using AttackTreeNode_ind'.
  intros level position totalSiblings parentX acc.
  rewrite createNodes_unfold. cbv zeta.
  rewrite (forEachChild_nodePositions _ _ _ _ IH). cbn [nodePositions].
  rewrite placed_unfold. reflexivity.
Qed.

Lemma recordAll_lookup (ns : list FlowNode) : forall m fn,
  NoDup (fn_id <$> ns) -> fn ∈ ns -> fn_id fn ≠ "__proto__" ->
  recordAll m ns !! fn_id fn = Some (fn_position fn).
Proof.
  induction ns as [|a ns IH] using rev_ind; intros m fn Hnd Hin Hkey; [inversion Hin|].
  unfold recordAll. rewrite foldl_snoc. fold (recordAll m ns).
  rewrite fmap_app in Hnd. apply NoDup_app in Hnd as (Hnd & Hdisj & _).
  apply elem_of_app in Hin as [Hin|Hin].
  - assert (Hne : fn_id a ≠ fn_id fn).
    { intros Heq. apply (Hdisj (fn_id fn)).
      - apply list_elem_of_fmap. exists fn. split; [reflexivity|exact Hin].
      - rewrite <- Heq. cbn. left. }
    unfold assign. case_bool_decide.
    + apply IH; assumption.
    + rewrite lookup_insert_ne by exact Hne. apply IH; assumption.
  - apply list_elem_of_singleton in Hin as ->.
    unfold assign. rewrite bool_decide_eq_false_2 by exact Hkey. apply lookup_insert_eq.
Qed.

Lemma recordAll_dom (ns : list FlowNode) : forall (m : gmap string Position) i,
  is_Some (recordAll m ns !! i)
  <-> is_Some (m !! i) \/ (i ∈ fn_id <$> ns /\ i ≠ "__proto__").
Proof.
  induction ns as [|a ns IH] using rev_ind; intros m i.
  - cbn. split; [intros H; left; exact H|]. intros [H|[H _]]; [exact H|inversion H].
  - unfold recordAll. rewrite foldl_snoc. fold (recordAll m ns).
    rewrite fmap_app, elem_of_app. cbn. rewrite list_elem_of_singleton.
    unfold assign. case_bool_decide as Hkey.
    + rewrite IH. split.
      * intros [H|[H Hi]]; [left; exact H | right; split; [left; exact H | exact Hi]].
      * intros [H|[[H|H] Hi]]; [left; exact H | right; split; assumption | congruence].
    + destruct (decide (fn_id a = i)) as [<-|Hne].
      * rewrite lookup_insert_eq.
        split; [intros _; right; split; [right; reflexivity | exact Hkey] | eauto].
      * rewrite lookup_insert_ne by exact Hne. rewrite IH. split.
        -- intros [H|[H Hi]]; [left; exact H | right; split; [left; exact H | exact Hi]].
        -- intros [H|[[H|H] Hi]]; [left; exact H | right; split; assumption | congruence].
Qed.

End PositionMap.

(** X4. The object [nodePositions] the first pass fills has an own
    property for exactly the ids of the tree, the key [__proto__] apart
    (an assignment under that key sets the prototype and stores nothing).
    When the ids of the tree are pairwise distinct, the property under
    the id of every positioned node is the position of that node. *)
Theorem nodePositions_match_nodes (config : SpacingConfig) (root : AttackTreeNode) :
  let acc := AttackTreePage.createNodes config root 0 0 1 0 emptyAcc in
  (forall i, is_Some (nodePositions acc !! i)
             <-> i ∈ id <$> subtrees root /\ i ≠ "__proto__") /\
  nodePositions acc !! "__proto__" = None /\
  (NoDup (id <$> subtrees root) ->
   forall fn, fn ∈ flowNodes acc -> fn_id fn ≠ "__proto__" ->
     nodePositions acc !! fn_id fn = Some (fn_position fn)).
Proof.
  intros acc. subst acc. rewrite createNodes_nodePositions.
  fold (placed config root 0 0 1 0).
  assert (Hdom : forall i,
            is_Some (recordAll ∅ (placed config root 0 0 1 0) !! i)
            <-> i ∈ id <$> subtrees root /\ i ≠ "__proto__").
  { intros i. rewrite recordAll_dom, placed_ids. rewrite lookup_empty.
    split; [intros [[? H]|H]; [discriminate|exact H] | intros H; right; exact H]. }
  split; [exact Hdom|]. split.
  - apply eq_None_not_Some. intros H. apply Hdom in H as [_ H]. congruence.
  - intros Hnd fn Hin Hkey. apply recordAll_lookup; [|exact Hin|exact Hkey].
    rewrite placed_ids. exact Hnd.
Qed.

Lemma nodePositions_match_nodes_witness :
  Forall
    (fun fn =>
       nodePositions (AttackTreePage.createNodes AttackTreePage.config
                        Examples.threeChildren 0 0 1 0 emptyAcc) !! fn_id fn
       = Some (fn_position fn))
    (flowNodes (AttackTreePage.createNodes AttackTreePage.config
                  Examples.threeChildren 0 0 1 0 emptyAcc)).
Proof.
  apply Forall_forall. intros fn Hin.
  apply (nodePositions_match_nodes AttackTreePage.config Examples.threeChildren).
  - by_evaluation.
  - exact Hin.
  - revert fn Hin. apply Forall_forall. by_evaluation.
Defined.

(** X5. What the Attack Tree page hands to the adapter.  It is the layout
    of the first node of the list exactly when that node has a child, and
    then the node list is one longer than the edge list; for an empty
    list and for a first node without children the view is left as it
    was. *)
Theorem page_publishes_when_root_has_child (treeNodes : list AttackTreeNode)
    (view : ViewState) :
  match treeNodes with
  | [] => AttackTreePage.processAttackTreeData treeNodes view = view
  | rootNode :: _ =>
      match kids rootNode with
      | [] => AttackTreePage.processAttackTreeData treeNodes view = view
      | _ :: _ =>
          AttackTreePage.processAttackTreeData treeNodes view
          = mkViewState (fst (AttackTreePage.layoutOf AttackTreePage.config rootNode))
                        (snd (AttackTreePage.layoutOf AttackTreePage.config rootNode)) /\
          length (nodes (AttackTreePage.processAttackTreeData treeNodes view))
          = S (length (edges (AttackTreePage.processAttackTreeData treeNodes view)))
      end
  end.
Proof.
  destruct treeNodes as [|rootNode rest]; [reflexivity|].
  unfold AttackTreePage.processAttackTreeData, AttackTreePage.layoutOf. cbn [head fst snd].
  fold (placed AttackTreePage.config rootNode 0 0 1 0).
  pose proof (placed_length AttackTreePage.config rootNode 0 0 1 0) as Hn.
  pose proof (createEdges_length rootNode) as He.
  pose proof (tree_size_unfold rootNode) as Hs.
  rewrite (createEdges_nil_unfold rootNode) in *.
  destruct (kids rootNode) as [|c cs].
  - cbn [mbind list_bind length]. rewrite andb_false_r. reflexivity.
  - destruct (placed AttackTreePage.config rootNode 0 0 1 0) as [|fn fns] eqn:Hp;
      [cbn in Hn; lia|].
    cbn [mbind list_bind app length Nat.ltb Nat.leb andb] in *.
    split; [reflexivity|]. cbn [nodes edges length]. lia.
Qed.

End LayoutMoreClaims.

(** * The layout of the report view *)

Section ReportViewFacts.

Import LayoutSpec LayoutMore.
Local Open Scope Q_scope.

Variable cfg : SpacingConfig.

Lemma rvForEach_loop cs level k X : forall j a,
  (fix forEach (l : list AttackTreeNode) (idx : nat) (a : LayoutAcc) : LayoutAcc :=
     match l with
     | [] => a
     | childNode :: r =>
         forEach r (S idx) (ReportView.createNodes cfg childNode level idx k X a)
     end) cs j a
  = rvForEachChild cfg cs level j k X a.
Proof.
  induction cs as [|c cs IH]; intros j a; [reflexivity|].
  cbn [rvForEachChild]. rewrite <- IH. reflexivity.
Qed.

Lemma rvCreateNodes_unfold n level position totalSiblings parentX acc :
  ReportView.createNodes cfg n level position totalSiblings parentX acc =
  let px := rvNodeX cfg level position totalSiblings parentX in
  let py := nodeY cfg level in
  rvForEachChild cfg (kids n) (S level) 0 (length (kids n)) px
    (mkLayoutAcc
       (flowNodes acc ++ [mkFlowNode (id n) (str_or (type n) "goal") (mkPosition px py) (label n)])
       (assign (id n) (mkPosition px py) (nodePositions acc))).
Proof.
  destruct n as [i t l [cs|]]; unfold kids; cbn [children].
  - cbv zeta. rewrite <- rvForEach_loop.
    destruct level as [|[|[|level]]]; reflexivity.
  - destruct level as [|[|[|level]]]; reflexivity.
Qed.

Lemma rvForEachChild_flowNodes cs level k X :
  Forall (fun c => forall lv pos ts px acc,
            flowNodes (ReportView.createNodes cfg c lv pos ts px acc)
            = flowNodes acc ++ rvPlaced cfg c lv pos ts px) cs ->
  forall j acc,
    flowNodes (rvForEachChild cfg cs level j k X acc)
    = flowNodes acc ++ concat (imap (fun i c => rvPlaced cfg c level (j + i) k X) cs).
Proof.
  induction 1 as [|c cs Hc _ IH]; intros j acc; cbn [rvForEachChild].
  - rewrite app_nil_r. reflexivity.
  - rewrite IH, Hc, imap_cons. cbn [concat]. rewrite Nat.add_0_r, <- app_assoc.
    do 3 f_equal. apply imap_ext. intros i c' _. cbn. f_equal. lia.
Qed.

Lemma rvCreateNodes_flowNodes n : forall level position totalSiblings parentX acc,
  flowNodes (ReportView.createNodes cfg n level position totalSiblings parentX acc)
  = flowNodes acc ++ rvPlaced cfg n level position totalSiblings parentX.
Proof.
  induction n as [n IH] using AttackTreeNode_ind'.
  intros level position totalSiblings parentX acc. unfold rvPlaced.
  rewrite !rvCreateNodes_unfold. cbv zeta.
  rewrite !(rvForEachChild_flowNodes _ _ _ _ IH). cbn [flowNodes].
  rewrite app_nil_l, <- app_assoc. reflexivity.
Qed.

Lemma rvPlaced_unfold n level position totalSiblings parentX :
  rvPlaced cfg n level position totalSiblings parentX
  = mkFlowNode (id n) (str_or (type n) "goal")
      (mkPosition (rvNodeX cfg level position totalSiblings parentX) (nodeY cfg level))
      (label n)
    :: concat (imap (fun i c =>
                 rvPlaced cfg c (S level) i (length (kids n))
                   (rvNodeX cfg level position totalSiblings parentX))
               (kids n)).
Proof.
  unfold rvPlaced at 1. rewrite rvCreateNodes_unfold. cbv zeta.
  rewrite rvForEachChild_flowNodes.
  - reflexivity.
  - apply Forall_forall. intros c _. apply rvCreateNodes_flowNodes.
Qed.

Lemma rvPlaced_levels n : forall level position totalSiblings parentX,
  Forall2 (placedFrom cfg) (rvPlaced cfg n level position totalSiblings parentX)
    (levels n level).
Proof.
  induction n as [n IH] using AttackTreeNode_ind'.
  intros level position totalSiblings parentX.
  rewrite rvPlaced_unfold, levels_unfold. constructor.
  - repeat split.
  - apply concat_imap_Forall2. intros i c Hc.
    rewrite Forall_forall in IH. apply IH, Hc.
Qed.

Lemma height_unfold n :
  height n = foldr (fun c m => Nat.max (S (height c)) m) 0%nat (kids n).
Proof. destruct n as [i t l [cs|]]; reflexivity. Qed.

Lemma height_child n c : c ∈ kids n -> (S (height c) <= height n)%nat.
Proof.
  intros Hc. rewrite (height_unfold n).
  induction (kids n) as [|a l IH]; [inversion Hc|].
  cbn [foldr]. apply elem_of_cons in Hc as [->|Hc]; [apply Nat.le_max_l|].
  etransitivity; [apply IH, Hc | apply Nat.le_max_r].
Qed.



End ReportViewFacts.

Section ReportViewClaims.

Import LayoutSpec LayoutMore.
Local Open Scope Q_scope.

(** X6. The report view hands to the adapter the layout of the designated
    root whenever the list is not empty: one positioned node per tree
    node in preorder, each at the y of its depth, and one edge per child;
    for an empty list it leaves the view as it was. *)
Theorem report_view_layout (treeNodes : list AttackTreeNode) (view : ViewState) :
  match designatedRoot treeNodes with
  | Some rootNode =>
      let v := ReportView.processAttackTreeData treeNodes view in
      Forall2
        (fun fn md =>
           fn_id fn = id md.1 /\ fn_type fn = str_or (type md.1) "goal" /\
           data_label fn = label md.1 /\
           y (fn_position fn)
           = num md.2 * (verticalBase ReportView.spacingConfig
                         + num md.2 * verticalIncrement ReportView.spacingConfig))
        (nodes v) (levels rootNode 0) /\
      length (nodes v) = tree_size rootNode /\
      edges v = createEdges rootNode [] /\
      length (edges v) = (tree_size rootNode - 1)%nat
  | None =>
      treeNodes = [] /\ ReportView.processAttackTreeData treeNodes view = view
  end.
Proof.
  unfold ReportView.processAttackTreeData. rewrite reportView_rootOf.
  destruct (designatedRoot treeNodes) as [rootNode|] eqn:Hroot.
  - unfold ReportView.layoutOf. cbn [nodes edges].
    fold (rvPlaced ReportView.spacingConfig rootNode 0 0 1 0).
    pose proof (rvPlaced_levels ReportView.spacingConfig rootNode 0 0 1 0) as Hl.
    split; [exact Hl|]. split; [|split; [reflexivity|]].
    + rewrite (Forall2_length _ _ _ Hl). unfold tree_size.
      rewrite <- (levels_fst rootNode 0), length_fmap. reflexivity.
    + pose proof (createEdges_length rootNode). lia.
  - split; [|reflexivity]. unfold designatedRoot in Hroot.
    destruct treeNodes as [|n rest]; [reflexivity|].
    destruct (filter _ (n :: rest)); discriminate.
Qed.



End ReportViewClaims.

(** * Further properties of the export *)

Section ExportMoreClaims.

Import Exporter ExportMore LayoutMore.

(** X8. The escaped label is the label with every double quote replaced
    by a single quote, character by character: at every position it holds
    a single quote where the label holds a double quote and the character
    of the label everywhere else.  So it has the length of the label,
    holds no double quote, and is the label itself exactly when the label
    holds none; escaping twice changes nothing more. *)
Theorem escapeLabel_facts (s : string) :
  (forall i c, String.get i s = Some c ->
     (c = dquote -> String.get i (escapeLabel s) = String.get 0 "'") /\
     (c <> dquote -> String.get i (escapeLabel s) = Some c)) /\
  String.length (escapeLabel s) = String.length s /\
  ~ In dquote (String.list_ascii_of_string (escapeLabel s)) /\
  (escapeLabel s = s <-> ~ In dquote (String.list_ascii_of_string s)) /\
  escapeLabel (escapeLabel s) = escapeLabel s.
Proof.
  induction s as [|c s (Hget & Hlen & Hno & Hid & Hidem)].
  - split; [intros i c Hi; destruct i; discriminate Hi|].
    repeat split; cbn; tauto.
  - split.
    { intros [|i] c' Hi; cbn [escapeLabel String.get] in *.
      - injection Hi as ->. split.
        + intros ->. reflexivity.
        + intros Hc. apply Ascii.eqb_neq in Hc. rewrite Hc. reflexivity.
      - apply (Hget i c' Hi). }
    cbn [escapeLabel String.length String.list_ascii_of_string].
    destruct (Ascii.eqb c dquote) eqn:Hc.
    + apply Ascii.eqb_eq in Hc. subst c. repeat split.
      * rewrite Hlen. reflexivity.
      * intros [Heq|Hin]; [discriminate Heq | exact (Hno Hin)].
      * intros Heq. injection Heq as Heq _. discriminate Heq.
      * intros Hn. exfalso. apply Hn. left. reflexivity.
      * cbn [escapeLabel]. rewrite Hidem. reflexivity.
    + apply Ascii.eqb_neq in Hc. repeat split.
      * rewrite Hlen. reflexivity.
      * intros [Heq|Hin]; [exact (Hc Heq) | exact (Hno Hin)].
      * intros Heq. injection Heq as Heq. intros [Hd|Hin]; [exact (Hc Hd)|].
        apply Hid in Heq. exact (Heq Hin).
      * intros Hn. f_equal. apply Hid. intros Hin. apply Hn. right. exact Hin.
      * cbn [escapeLabel]. apply Ascii.eqb_neq in Hc. rewrite Hc, Hidem. reflexivity.
Qed.

(** *** Reachability *)

Lemma sound_nil h root : sound h root [].
Proof. split; intros ? ? Hin; inversion Hin. Qed.

Lemma sound_app h root d1 d2 : sound h root d1 -> sound h root d2 -> sound h root (d1 ++ d2).
Proof.
  intros [Hd1 Ha1] [Hd2 Ha2]. split.
  - intros i t Hin. apply elem_of_app in Hin as [Hin|Hin]; eauto.
  - intros a b Hin. apply elem_of_app in Hin as [Hin|Hin]; eauto.
Qed.

Lemma forEachChildNode_sound (h : heap) (fuel : nat) (root l : loc) (o : NodeObj) :
  (forall node st st',
     reach h root node -> processNode fuel h node st = Done st' ->
     exists delta, mermaidContent st' = mermaidContent st ++ delta /\ sound h root delta) ->
  reach h root l -> h !! l = Some o ->
  forall cs s s',
    (forall c, c ∈ cs -> c ∈ okids o) ->
    forEachChildNode fuel h (o_id o) cs s = Done s' ->
    exists delta, mermaidContent s' = mermaidContent s ++ delta /\ sound h root delta.
Proof.
  intros IH Hl Ho. induction cs as [|c cs IHcs]; intros s s' Hsub Hrun.
  - injection Hrun as <-. exists []. rewrite app_nil_r. split; [reflexivity|apply sound_nil].
  - cbn [forEachChildNode] in Hrun. unfold deref in Hrun.
    destruct (h !! c) as [oc|] eqn:Hc; cbn in Hrun; [|discriminate].
    destruct (processNode fuel h c _) as [s1| |] eqn:Hcall; cbn in Hrun; try discriminate.
    assert (Hcin : c ∈ okids o) by (apply Hsub; left).
    destruct (IH c _ s1 (reach_child h root l o c Hl Ho Hcin) Hcall) as (d1 & Hc1 & Hs1).
    destruct (IHcs s1 s') as (d2 & Hc2 & Hs2); [intros c' Hc'; apply Hsub; right; exact Hc' | exact Hrun |].
    cbn in Hc1. exists (Arrow (o_id o) (o_id oc) :: d1 ++ d2). split.
    + rewrite Hc2, Hc1, <- !app_assoc. reflexivity.
    + change (sound h root ([Arrow (o_id o) (o_id oc)] ++ (d1 ++ d2))).
      apply sound_app; [|apply sound_app; assumption]. split.
      * intros i t Hin. apply list_elem_of_singleton in Hin. discriminate Hin.
      * intros a b Hin. apply list_elem_of_singleton in Hin. injection Hin as -> ->.
        exists l, o, c, oc. repeat split; assumption.
Qed.

Lemma processNode_sound (h : heap) (root : loc) (fuel : nat) :
  forall node st st',
    reach h root node -> processNode fuel h node st = Done st' ->
    exists delta, mermaidContent st' = mermaidContent st ++ delta /\ sound h root delta.
Proof.
  induction fuel as [|fuel IH]; intros node st st' Hreach Hrun; [discriminate|].
  rewrite processNode_unfold in Hrun. unfold deref in Hrun.
  destruct (h !! node) as [o|] eqn:Ho; cbn in Hrun; [|discriminate].
  case_bool_decide.
  - injection Hrun as <-. exists []. rewrite app_nil_r. split; [reflexivity|apply sound_nil].
  - destruct (forEachChildNode_sound h fuel root node o IH Hreach Ho _ _ _
                (fun c Hc => Hc) Hrun) as (d & Hc & Hs).
    cbn in Hc. exists (Decl (o_id o) (escapeLabel (o_label o)) :: d). split.
    + rewrite Hc, <- app_assoc. reflexivity.
    + change (sound h root ([Decl (o_id o) (escapeLabel (o_label o))] ++ d)).
      apply sound_app; [|exact Hs]. split.
      * intros i t Hin. apply list_elem_of_singleton in Hin. injection Hin as -> ->.
        exists node, o. repeat split; assumption.
      * intros a b Hin. apply list_elem_of_singleton in Hin. discriminate Hin.
Qed.

(** X9. The export describes exactly the part of the store that can be
    reached from the root.  Every declaration is the id and escaped label
    of a reachable node, every arrow leads from a reachable node to one
    of the entries of its [children] array, and the declaration of the
    root comes first; when the ids of the store are pairwise distinct,
    every reachable node is declared. *)
Theorem export_covers_reachable (h : heap) (nodes : list loc) (r : loc) (o : NodeObj) :
  closed h nodes -> Exporter.designatedRoot h nodes = Some r -> h !! r = Some o ->
  exists rest,
    exportStmts (enoughFuel h) h nodes
    = Done (Decl (o_id o) (escapeLabel (o_label o)) :: rest) /\
    sound h r (Decl (o_id o) (escapeLabel (o_label o)) :: rest) /\
    (uniqueIds h ->
     forall l ol, reach h r l -> h !! l = Some ol ->
       o_id ol ∈ declIds (Decl (o_id o) (escapeLabel (o_label o)) :: rest)).
Proof.
  intros [Hnodes Hheap] Hroot Ho.
  destruct (processNode_spec h Hheap (enoughFuel h) r o initialState Ho)
    as (st & delta & Hrun & Hg & Hin & Hsrc).
  { unfold enoughFuel. cbn. rewrite difference_empty_L. lia. }
  pose proof (grows_content _ _ _ _ Hg) as Hc. cbn in Hc. subst delta.
  pose proof (grows_visited _ _ _ _ Hg) as Hv. cbn in Hv.
  assert (Hexport : exportStmts (enoughFuel h) h nodes = Done (mermaidContent st)).
  { unfold exportStmts. rewrite (rootOf_closed h nodes Hnodes), Hroot.
    cbn [mbind outcome_bind]. rewrite Hrun. reflexivity. }
  destruct (processNode_sound h r _ _ _ _ (reach_root h r) Hrun) as (d & Hd & Hsound).
  cbn in Hd. subst d.
  assert (Hhead : exists rest,
            mermaidContent st = Decl (o_id o) (escapeLabel (o_label o)) :: rest).
  { pose proof Hrun as Hrun'. unfold enoughFuel in Hrun'.
    rewrite processNode_unfold in Hrun'. unfold deref in Hrun'. rewrite Ho in Hrun'.
    cbn in Hrun'. rewrite bool_decide_eq_false_2 in Hrun' by set_solver.
    destruct (forEachChildNode_sound h _ r r o (processNode_sound h r _)
                (reach_root h r) Ho _ _ _ (fun c Hc => Hc) Hrun') as (d & Hd & _).
    cbn in Hd. exists d. exact Hd. }
  destruct Hhead as (rest & Hrest). rewrite Hrest in *.
  exists rest. split; [exact Hexport|]. split; [exact Hsound|].
  intros Hu l ol Hreach. revert ol.
  induction Hreach as [|l ol' c Hreach IH Hl Hcin]; intros ol Hol.
  - rewrite Ho in Hol. injection Hol as <-. cbn. left.
  - specialize (IH ol' Hl).
    destruct (grows_expanded _ _ _ _ Hg _ IH) as (p' & o' & Hp' & Hid & _ & Harr).
    destruct (uniqueIds_inj h p' l o' ol' Hu Hp' Hl Hid) as [-> ->].
    assert (Hfrom : (o_id ol', o_id ol) ∈ arrowsFrom (o_id ol')
                      (Decl (o_id o) (escapeLabel (o_label o)) :: rest)).
    { rewrite Harr. apply list_elem_of_fmap. exists (o_id ol). split; [reflexivity|].
      unfold idsOf. apply list_elem_of_omap. exists c. split; [exact Hcin|].
      rewrite Hol. reflexivity. }
    unfold arrowsFrom in Hfrom. apply list_elem_of_filter in Hfrom as [_ Hfrom].
    pose proof (grows_targets _ _ _ _ Hg _ _ Hfrom) as Ht.
    rewrite Hv in Ht. set_solver.
Qed.

Lemma export_covers_reachable_witness :
  exists rest,
    exportStmts (enoughFuel Examples.diamond) Examples.diamond [0%nat]
    = Done (Decl "r" "Root" :: rest) /\
    "c" ∈ declIds (Decl "r" "Root" :: rest).
Proof.
  destruct (export_covers_reachable Examples.diamond [0%nat] 0%nat
              (mkNodeObj "r" (Some "goal") "Root" (Some [1%nat; 2%nat])))
    as (rest & Hrun & _ & Hall).
  - by_evaluation.
  - reflexivity.
  - reflexivity.
  - exists rest. split; [exact Hrun|].
    apply (Hall ltac:(by_evaluation) 3%nat (mkNodeObj "c" (Some "vulnerability") "C" None)).
    + apply (reach_child _ _ 1%nat (mkNodeObj "a" (Some "attack") "A" (Some [3%nat]))).
      * apply (reach_child _ _ 0%nat
                 (mkNodeObj "r" (Some "goal") "Root" (Some [1%nat; 2%nat])));
          [apply reach_root | reflexivity | set_solver].
      * reflexivity.
      * set_solver.
    + reflexivity.
Defined.

(** *** Stores that hold a tree *)

Lemma repr_unfold h t l :
  repr h t l <->
  exists o, h !! l = Some o /\ o_id o = id t /\ o_label o = label t /\
            o_type o = type t /\ Forall2 (repr h) (kids t) (okids o).
Proof.
  destruct t as [i ty lb [cs|]]; unfold kids; cbn [repr children id label type];
    destruct (h !! l) as [o|].
  - assert (Hgo : forall ls,
      (fix go (cs : list AttackTreeNode) (ls : list loc) : Prop :=
         match cs, ls with
         | [], [] => True
         | c :: cs', l' :: ls' => repr h c l' /\ go cs' ls'
         | _, _ => False
         end) cs ls <-> Forall2 (repr h) cs ls).
    { induction cs as [|c cs IH]; intros [|l' ls]; split; intros H.
      - constructor.
      - exact I.
      - destruct H.
      - inversion H.
      - destruct H.
      - inversion H.
      - destruct H as [Hc Hr]. constructor; [exact Hc | apply IH, Hr].
      - inversion H; subst. split; [assumption | apply IH; assumption]. }
    split.
    + intros (H1 & H2 & H3 & H4). exists o. repeat split; try assumption. apply Hgo, H4.
    + intros (o' & [= <-] & H1 & H2 & H3 & H4). repeat split; try assumption. apply Hgo, H4.
  - split; [tauto | intros (o' & [=] & _)].
  - split.
    + intros (H1 & H2 & H3 & H4). exists o. repeat split; try assumption.
      rewrite H4. constructor.
    + intros (o' & [= <-] & H1 & H2 & H3 & H4). repeat split; try assumption.
      inversion H4. reflexivity.
  - split; [tauto | intros (o' & [=] & _)].
Qed.

Lemma treeStmts_unfold t :
  treeStmts t
  = Decl (id t) (escapeLabel (label t))
    :: (kids t ≫= fun c => Arrow (id t) (id c) :: treeStmts c).
Proof. destruct t as [i ty lb [cs|]]; reflexivity. Qed.

Lemma treeStmts_declIds t : declIds (treeStmts t) = id <$> subtrees t.
Proof.
  induction t as [t IH] using AttackTreeNode_ind'.
  rewrite treeStmts_unfold, subtrees_unfold. cbn. f_equal.
  induction IH as [|c cs Hc _ IHcs]; [reflexivity|].
  cbn. rewrite fmap_app, <- Hc, <- IHcs. apply (declIds_app (treeStmts c)).
Qed.

Lemma treeStmts_arrows t :
  arrows (treeStmts t) = (fun e => (source e, target e)) <$> createEdges t [].
Proof.
  induction t as [t IH] using AttackTreeNode_ind'.
  rewrite treeStmts_unfold, createEdges_nil_unfold.
  change (arrows (Decl (id t) (escapeLabel (label t)) :: ?l)) with (arrows l).
  induction IH as [|c cs Hc _ IHcs]; [reflexivity|].
  cbn. rewrite fmap_app, <- Hc, <- IHcs. f_equal. apply (arrows_app (treeStmts c)).
Qed.

Lemma forEachChildNode_tree h fuel pid cs : forall ls s,
  Forall2 (repr h) cs ls ->
  Forall (exportsTree h) cs ->
  NoDup (id <$> (cs ≫= subtrees)) ->
  (forall i, i ∈ id <$> (cs ≫= subtrees) -> i ∉ processedNodeIds s) ->
  Forall (fun c => (height c < fuel)%nat) cs ->
  forEachChildNode fuel h pid ls s
  = Done (mkExportState
            (mermaidContent s ++ (cs ≫= fun c => Arrow pid (id c) :: treeStmts c))
            (list_to_set (id <$> (cs ≫= subtrees)) ∪ processedNodeIds s)).
Proof.
  induction cs as [|c cs IHcs]; intros ls s Hrepr Hexp Hnd Hfresh Hh.
  - inversion Hrepr; subst. cbn. rewrite app_nil_r.
    destruct s as [content visited]. cbn. do 2 f_equal. set_solver.
  - inversion Hrepr as [|? l' ? ls' Hc Hrest]; subst.
    apply Forall_cons in Hexp as [Hexpc Hexp]. apply Forall_cons in Hh as [Hhc Hh].
    cbn in Hnd, Hfresh. rewrite fmap_app in Hnd, Hfresh.
    apply NoDup_app in Hnd as (Hndc & Hdisj & Hndr).
    pose proof (proj1 (repr_unfold h c l') Hc) as (oc & Hoc & Hid & _).
    cbn [forEachChildNode]. unfold deref at 1. rewrite Hoc. cbn [mbind outcome_bind].
    rewrite (Hexpc l' _ fuel Hc Hndc); [|intros i Hi; apply Hfresh; set_solver | exact Hhc].
    cbn [mbind outcome_bind mermaidContent processedNodeIds].
    rewrite (IHcs ls' _ Hrest Hexp Hndr); [| |exact Hh].
    + cbn [mermaidContent processedNodeIds]. rewrite Hid. do 2 f_equal.
      * cbn. rewrite <- !app_assoc. reflexivity.
      * cbn. rewrite fmap_app, list_to_set_app_L. set_solver.
    + cbn. intros i Hi Hin. apply elem_of_union in Hin as [Hin|Hin].
      * apply elem_of_list_to_set in Hin. apply (Hdisj i Hin Hi).
      * apply (Hfresh i); [set_solver | exact Hin].
Qed.

Lemma processNode_tree h t : exportsTree h t.
Proof.
  induction t as [t IH] using AttackTreeNode_ind'.
  intros l st fuel Hrepr Hnd Hfresh Hh.
  destruct fuel as [|fuel]; [lia|].
  apply repr_unfold in Hrepr as (o & Ho & Hid & Hlab & _ & Hkids).
  rewrite subtrees_unfold in Hnd, Hfresh. cbn in Hnd, Hfresh.
  apply NoDup_cons in Hnd as [Hroot Hnd].
  rewrite processNode_unfold. unfold deref. rewrite Ho. cbn [mbind outcome_bind].
  rewrite bool_decide_eq_false_2 by (rewrite Hid; apply Hfresh; left).
  rewrite (forEachChildNode_tree h fuel (o_id o) (kids t) (okids o) _ Hkids IH Hnd).
  - cbn [mermaidContent processedNodeIds]. rewrite Hid, Hlab. do 2 f_equal.
    + rewrite treeStmts_unfold, <- app_assoc. reflexivity.
    + rewrite (subtrees_unfold t). cbn. set_solver.
  - cbn. intros i Hi Hin. apply elem_of_union in Hin as [Hin|Hin].
    + apply elem_of_singleton in Hin. subst i. rewrite Hid in Hi. exact (Hroot Hi).
    + apply (Hfresh i); [right; exact Hi | exact Hin].
  - apply Forall_forall. intros c Hc. pose proof (height_child t c Hc). lia.
Qed.

(** X10. When the store holds a tree whose ids are pairwise distinct, the
    export is the depth-first listing of that tree: the declaration of a
    node, then for each child the arrow to it followed by the listing of
    the child.  It declares the nodes in the order in which the layout
    positions them, and its arrows are the edges of the layout, in the
    same order: N declarations and N-1 arrows for a tree of N nodes. *)
Theorem export_of_tree (h : heap) (t : AttackTreeNode) (l : loc) (fuel : nat) :
  repr h t l -> NoDup (id <$> subtrees t) -> (height t < fuel)%nat ->
  exportStmts fuel h [l] = Done (treeStmts t) /\
  declIds (treeStmts t) = id <$> subtrees t /\
  arrows (treeStmts t) = (fun e => (source e, target e)) <$> createEdges t [] /\
  length (declIds (treeStmts t)) = tree_size t /\
  length (arrows (treeStmts t)) = (tree_size t - 1)%nat.
Proof.
  intros Hrepr Hnd Hh. split; [|split; [|split; [|split]]].
  - pose proof (proj1 (repr_unfold h t l) Hrepr) as (o & Ho & _).
    assert (Hroot : rootOf h [l] = Done (Some l)).
    { unfold rootOf. cbn [findGoal]. unfold deref. rewrite Ho. cbn [mbind outcome_bind].
      case_bool_decide; reflexivity. }
    unfold exportStmts. rewrite Hroot. cbn [mbind outcome_bind].
    rewrite (processNode_tree h t l initialState fuel Hrepr Hnd); [reflexivity| |exact Hh].
    intros i _. cbn. set_solver.
  - apply treeStmts_declIds.
  - apply treeStmts_arrows.
  - rewrite treeStmts_declIds, length_fmap. reflexivity.
  - rewrite treeStmts_arrows, length_fmap. pose proof (createEdges_length t). lia.
Qed.

Lemma export_of_tree_witness :
  exportStmts 3 Examples.scenarioStore [0%nat] = Done (treeStmts Examples.scenario) /\
  length (declIds (treeStmts Examples.scenario)) = 4%nat /\
  length (arrows (treeStmts Examples.scenario)) = 3%nat.
Proof.
  destruct (export_of_tree Examples.scenarioStore Examples.scenario 0%nat 3)
    as (Hrun & _ & _ & Hd & Ha).
  - cbn. repeat split.
  - by_evaluation.
  - cbn. lia.
  - split; [exact Hrun|]. split; [exact Hd | exact Ha].
Defined.

End ExportMoreClaims.

(** * The DREAD page *)

Section DreadPageClaims.

Import Normalizer JsNumber DreadPage.

(** X11. [getDreadItems] never yields a falsy value: it returns the list
    it finds or the empty array.  The test of the page that is meant to
    reject a reply without items therefore rejects exactly the replies
    without a truthy [result]; a reply with a [result] but no items is
    accepted and shown as an empty table. *)
Theorem getDreadItems_truthy (dreadResponse : value) :
  truthy (getDreadItems (get "result" dreadResponse)) = true /\
  rejectsResponse dreadResponse = negb (truthy (get "result" dreadResponse)) /\
  (truthy (get "Risk Assessment" (get "raw_response" (get "result" dreadResponse))) = false ->
   truthy (get "Risk Assessment"
             (get "raw_response" (get "result" (get "result" dreadResponse)))) = false ->
   truthy (get "Risk Assessment"
             (get "raw_response" (get "result" (get "result" (get "result" dreadResponse)))))
   = false ->
   getDreadItems (get "result" dreadResponse) = Some (JArr [])).
Proof.
  assert (Ht : truthy (getDreadItems (get "result" dreadResponse)) = true).
  { unfold getDreadItems.
    destruct (truthy (get "Risk Assessment" (get "raw_response" (get "result" dreadResponse))))
      eqn:H1; [exact H1|].
    destruct (truthy (get "Risk Assessment"
                (get "raw_response" (get "result" (get "result" dreadResponse)))))
      eqn:H2; [exact H2|].
    destruct (truthy (get "Risk Assessment"
                (get "raw_response" (get "result" (get "result" (get "result" dreadResponse))))))
      eqn:H3; [exact H3|reflexivity]. }
  split; [exact Ht|]. split.
  - unfold rejectsResponse. rewrite Ht. apply orb_false_r.
  - intros H1 H2 H3. unfold getDreadItems. rewrite H1, H2, H3. reflexivity.
Qed.

Lemma getDreadItems_truthy_witness :
  getDreadItems (get "result" (Some (JObj [("result", JObj [("markdown", JStr "x")])])))
  = Some (JArr []).
Proof.
  apply (getDreadItems_truthy (Some (JObj [("result", JObj [("markdown", JStr "x")])])));
    reflexivity.
Defined.

(** *** Risk scores *)

(** Comparing in the other direction gives the opposite answer. *)
Lemma SFcompare_flip (a b : number) :
  SFcompare b a = CompOpp <$> SFcompare a b.
Proof.
  destruct a as [sa|sa| |sa ma ea], b as [sb|sb| |sb mb eb]; try reflexivity;
    try (destruct sa; reflexivity); try (destruct sb; reflexivity);
    try (destruct sa, sb; reflexivity).
  cbn [SFcompare fmap option_fmap option_map].
  change (Pos.compare_cont Eq ma mb) with (Pos.compare ma mb).
  change (Pos.compare_cont Eq mb ma) with (Pos.compare mb ma).
  rewrite (Pos.compare_antisym ma mb), (Z.compare_antisym ea eb).
  destruct sa, sb; try reflexivity;
    destruct (ea ?= eb)%Z; cbn [CompOpp]; try reflexivity;
    destruct (ma ?= mb)%positive; reflexivity.
Qed.

Lemma compare_NaN (a b : number) :
  SFcompare a b = None <-> isNaN a = true \/ isNaN b = true.
Proof.
  destruct a as [sa|sa| |sa ma ea], b as [sb|sb| |sb mb eb]; cbn;
    split; try discriminate; try tauto; try (intros [H|H]; discriminate H);
    try (destruct sa; discriminate); try (destruct sb; discriminate).
Qed.

(** Among numbers, [a < b] is the negation of [a >= b]. *)
Lemma ltb_negb_geb (a b : number) :
  isNaN a = false -> isNaN b = false -> ltb a b = negb (geb a b).
Proof.
  intros Ha Hb. unfold ltb, geb, SFltb, SFleb. rewrite (SFcompare_flip a b).
  destruct (SFcompare a b) as [[| |]|] eqn:Hc; try reflexivity.
  apply compare_NaN in Hc as [H|H]; congruence.
Qed.

(** A number that is at least 8 is at least 6. *)
Lemma geb_8_6 (a : number) : geb a (ofZ 8) = true -> geb a (ofZ 6) = true.
Proof.
  change (ofZ 8) with (S754_finite false 4503599627370496 (-49)).
  change (ofZ 6) with (S754_finite false 6755399441055744 (-50)).
  unfold geb, SFleb. destruct a as [sa|sa| |sa ma ea]; try (intros H; exact H).
  cbn [SFcompare]. destruct sa; [intros H; exact H|].
  destruct (Z.compare_spec (-49) ea) as [<-|Hlt|Hgt].
  - intros _. reflexivity.
  - intros _. rewrite (proj2 (Z.compare_lt_iff (-50) ea)) by lia. reflexivity.
  - discriminate.
Qed.

Lemma add_NaN_r (a : number) : add a S754_nan = S754_nan.
Proof. destruct a; reflexivity. Qed.

(** Once the running sum is NaN it stays NaN. *)
Lemma fold_add_NaN (l : list number) : fold_left add l S754_nan = S754_nan.
Proof. induction l as [|b l IH]; [reflexivity|]. cbn [fold_left]. exact IH. Qed.

Lemma fold_add_has_NaN (l : list number) : forall acc,
  In S754_nan l -> fold_left add l acc = S754_nan.
Proof.
  induction l as [|b l IH]; intros acc Hin; [destruct Hin|].
  cbn [fold_left]. destruct Hin as [->|Hin].
  - rewrite add_NaN_r. apply fold_add_NaN.
  - apply IH, Hin.
Qed.

(** Whole numbers up to 50 add without rounding, and their fifth compares
    with whole numbers as the exact quotient does. *)
Lemma add_whole (a b : Z) :
  (0 <= a <= 40)%Z -> (0 <= b <= 10)%Z -> add (ofZ a) (ofZ b) = ofZ (a + b).
Proof.
  intros Ha Hb.
  assert (H : Forall (fun a => Forall (fun b => add (ofZ a) (ofZ b) = ofZ (a + b))
                                  (seqZ 0 11)) (seqZ 0 41)) by by_evaluation.
  rewrite Forall_forall in H. specialize (H a). rewrite Forall_forall in H.
  apply H; apply elem_of_seqZ; lia.
Qed.

Lemma fifth_whole (s : Z) :
  (0 <= s <= 50)%Z ->
  geb (div (ofZ s) (ofZ 5)) (ofZ 8) = (40 <=? s)%Z /\
  geb (div (ofZ s) (ofZ 5)) (ofZ 6) = (30 <=? s)%Z /\
  ((s mod 5 = 0)%Z -> div (ofZ s) (ofZ 5) = ofZ (s / 5)) /\
  Forall (fun k => ((5 * k <= s)%Z -> geb (div (ofZ s) (ofZ 5)) (ofZ k) = true) /\
                   ((s <= 5 * k)%Z -> geb (ofZ k) (div (ofZ s) (ofZ 5)) = true))
         (seqZ 0 11).
Proof.
  intros Hs.
  assert (H : Forall (fun s =>
      geb (div (ofZ s) (ofZ 5)) (ofZ 8) = (40 <=? s)%Z /\
      geb (div (ofZ s) (ofZ 5)) (ofZ 6) = (30 <=? s)%Z /\
      ((s mod 5 = 0)%Z -> div (ofZ s) (ofZ 5) = ofZ (s / 5)) /\
      Forall (fun k => ((5 * k <= s)%Z -> geb (div (ofZ s) (ofZ 5)) (ofZ k) = true) /\
                       ((s <= 5 * k)%Z -> geb (ofZ k) (div (ofZ s) (ofZ 5)) = true))
             (seqZ 0 11)) (seqZ 0 51)) by by_evaluation.
  rewrite Forall_forall in H. apply H, elem_of_seqZ. lia.
Qed.

(** X12. For ratings that are whole numbers from 0 to 10, as on the scale
    of the page, the five ratings add up without rounding, so the risk
    score is the double nearest to a fifth of their sum, and the sum
    itself divided by five when that is a whole number.  The level is
    High exactly when the ratings add up to 40 or more, Medium from 30 to
    39, Low below 30; and the score lies between any two whole numbers
    that bound the five ratings. *)
Theorem risk_score_mean_and_level (threat sc : string) (d r e a di : Z) :
  (0 <= d <= 10)%Z -> (0 <= r <= 10)%Z -> (0 <= e <= 10)%Z ->
  (0 <= a <= 10)%Z -> (0 <= di <= 10)%Z ->
  let total := (d + r + e + a + di)%Z in
  let score :=
    calculateRiskScore
      (mkDreadAssessment threat sc (ofZ d) (ofZ r) (ofZ e) (ofZ a) (ofZ di)) in
  score = div (ofZ total) (ofZ 5) /\
  ((total mod 5 = 0)%Z -> score = ofZ (total / 5)) /\
  (text (getRiskLevel score) = "High" <-> (40 <= total)%Z) /\
  (text (getRiskLevel score) = "Medium" <-> (30 <= total < 40)%Z) /\
  (text (getRiskLevel score) = "Low" <-> (total < 30)%Z) /\
  (forall lo hi : Z,
     (0 <= lo)%Z -> (hi <= 10)%Z ->
     (lo <= d <= hi)%Z -> (lo <= r <= hi)%Z -> (lo <= e <= hi)%Z ->
     (lo <= a <= hi)%Z -> (lo <= di <= hi)%Z ->
     geb score (ofZ lo) = true /\ geb (ofZ hi) score = true).
Proof.
  intros Hd Hr He Ha Hdi total score.
  assert (Hscore : score = div (ofZ total) (ofZ 5)).
  { subst score total. unfold calculateRiskScore, scoresOf.
    cbn [fold_left length damagePotential reproducibility exploitability
         affectedUsers discoverability].
    rewrite (add_whole 0 d) by lia. rewrite Z.add_0_l.
    rewrite (add_whole d r), (add_whole (d + r) e),
      (add_whole (d + r + e) a), (add_whole (d + r + e + a) di) by lia.
    reflexivity. }
  assert (Ht : (0 <= total <= 50)%Z) by (subst total; lia).
  destruct (fifth_whole total Ht) as (H8 & H6 & Hex & Hbd).
  rewrite <- Hscore in H8, H6, Hex, Hbd.
  assert (Hbounds : forall lo hi : Z,
     (0 <= lo)%Z -> (hi <= 10)%Z ->
     (lo <= d <= hi)%Z -> (lo <= r <= hi)%Z -> (lo <= e <= hi)%Z ->
     (lo <= a <= hi)%Z -> (lo <= di <= hi)%Z ->
     geb score (ofZ lo) = true /\ geb (ofZ hi) score = true).
  { intros lo hi Hlo Hhi ? ? ? ? ?. rewrite Forall_forall in Hbd.
    split.
    - apply (Hbd lo); [apply elem_of_seqZ; lia | subst total; lia].
    - apply (Hbd hi); [apply elem_of_seqZ; lia | subst total; lia]. }
  clearbody score total.
  split; [exact Hscore|]. split; [exact Hex|].
  unfold getRiskLevel. rewrite H8, H6.
  destruct (Z.leb_spec 40 total) as [H40|H40]; cbn [text].
  - split; [|split; [|split; [|exact Hbounds]]].
    + split; [intros _; exact H40 | reflexivity].
    + split; [discriminate | lia].
    + split; [discriminate | lia].
  - destruct (Z.leb_spec 30 total) as [H30|H30]; cbn [text].
    + split; [|split; [|split; [|exact Hbounds]]].
      * split; [discriminate | lia].
      * split; [intros _; lia | reflexivity].
      * split; [discriminate | lia].
    + split; [|split; [|split; [|exact Hbounds]]].
      * split; [discriminate | lia].
      * split; [discriminate | lia].
      * split; [intros _; exact H30 | reflexivity].
Qed.

Lemma risk_score_mean_and_level_witness :
  calculateRiskScore
    (mkDreadAssessment "Spoofing" "s" (ofZ 9) (ofZ 8) (ofZ 7) (ofZ 10) (ofZ 6)) = ofZ 8 /\
  text (getRiskLevel
          (calculateRiskScore
             (mkDreadAssessment "Spoofing" "s" (ofZ 9) (ofZ 8) (ofZ 7) (ofZ 10) (ofZ 6))))
  = "High".
Proof.
  destruct (risk_score_mean_and_level "Spoofing" "s" 9 8 7 10 6)
    as (_ & Hex & Hhigh & _); try lia.
  split.
  - apply Hex. reflexivity.
  - apply Hhigh. lia.
Defined.

(** *** The risk distribution *)

Lemma inLevel_cases a :
  let score := calculateRiskScore a in
  if isNaN score
  then inLevel "High" a = false /\ inLevel "Medium" a = false /\
       inLevel "Low" a = false /\ text (getRiskLevel score) = "Low"
  else exists level, level ∈ ["High"; "Medium"; "Low"] /\
         text (getRiskLevel score) = level /\
         inLevel "High" a = bool_decide (level = "High") /\
         inLevel "Medium" a = bool_decide (level = "Medium") /\
         inLevel "Low" a = bool_decide (level = "Low").
Proof.
  intros score. unfold inLevel, getRiskLevel. fold score.
  cbn [String.eqb Ascii.eqb Bool.eqb andb].
  destruct (isNaN score) eqn:Hnan.
  - destruct score; try discriminate Hnan. repeat split.
  - rewrite !ltb_negb_geb by (exact Hnan || reflexivity).
    destruct (geb score (ofZ 8)) eqn:H8.
    + rewrite (geb_8_6 score H8). exists "High". repeat split. set_solver.
    + destruct (geb score (ofZ 6)) eqn:H6.
      * exists "Medium". repeat split. set_solver.
      * exists "Low". repeat split. set_solver.
Qed.

Lemma countLevel_cons level a l :
  countLevel level (a :: l)
  = ((if inLevel level a then 1 else 0) + countLevel level l)%nat.
Proof. unfold countLevel. cbn [List.filter]. destruct (inLevel level a); reflexivity. Qed.

(** X13. The cards of the risk distribution count an assessment at most
    once.  An assessment whose score is a number is counted on exactly
    one card, the one whose level [getRiskLevel] gives the score.  An
    assessment whose score is NaN, as it is whenever one of its ratings
    is missing or NaN, is counted on no card, although [getRiskLevel]
    calls it Low.  So the three counts and the number of assessments
    without a score add up to the number of assessments. *)
Theorem distribution_partitions (sortedAssessments : list DreadAssessment) :
  (countLevel "High" sortedAssessments + countLevel "Medium" sortedAssessments
   + countLevel "Low" sortedAssessments
   + length (List.filter (fun a => isNaN (calculateRiskScore a)) sortedAssessments)
   = length sortedAssessments)%nat /\
  Forall
    (fun a =>
       let score := calculateRiskScore a in
       (In S754_nan (scoresOf a) -> isNaN score = true) /\
       (isNaN score = true ->
        Forall (fun level => inLevel level a = false) ["High"; "Medium"; "Low"] /\
        text (getRiskLevel score) = "Low") /\
       (isNaN score = false ->
        Forall (fun level =>
                  inLevel level a = true <-> text (getRiskLevel score) = level)
               ["High"; "Medium"; "Low"]))
    sortedAssessments.
Proof.
  split.
  - induction sortedAssessments as [|a l IH]; [reflexivity|].
    rewrite !countLevel_cons. cbn [List.filter length].
    pose proof (inLevel_cases a) as Hc. cbv zeta in Hc.
    destruct (isNaN (calculateRiskScore a)).
    + destruct Hc as (-> & -> & -> & _). cbn [length]. lia.
    + destruct Hc as (level & Hin & _ & -> & -> & ->).
      repeat (apply elem_of_cons in Hin as [->|Hin]); [| | |inversion Hin];
        repeat case_bool_decide; try discriminate; try congruence; lia.
  - apply Forall_forall. intros a _. cbv zeta.
    pose proof (inLevel_cases a) as Hc. cbv zeta in Hc.
    split; [|split].
    + intros Hin. unfold calculateRiskScore.
      rewrite (fold_add_has_NaN _ _ Hin). reflexivity.
    + intros Hnan. rewrite Hnan in Hc. destruct Hc as (H1 & H2 & H3 & Ht).
      split; [|exact Ht]. repeat constructor; assumption.
    + intros Hnan. rewrite Hnan in Hc.
      destruct Hc as (level & Hin & Ht & HH & HM & HL). rewrite Ht.
      repeat constructor; rewrite ?HH, ?HM, ?HL;
        apply bool_decide_eq_true.
Qed.

End DreadPageClaims.

(** * Envelopes handed between the pages *)

Section ReportFetchClaims.

Import Normalizer ReportFetch.

Lemma asEnvelope_read (pd : AttackTreeResponse) :
  get "timestamp" (Some (asEnvelope pd)) = timestamp pd /\
  get "markdown" (get "result" (get "result" (Some (asEnvelope pd)))) = markdown pd /\
  at_result_result_attack_tree_nodes (asEnvelope pd) = attack_tree_nodes pd.
Proof. destruct pd as [[t|] [m|] [n|]]; repeat split. Qed.

Lemma fetchData_loaded_inv now data service pd treeNodes :
  fetchData now data service = Loaded pd treeNodes ->
  truthy treeNodes = true /\ attack_tree_nodes pd = treeNodes.
Proof.
  unfold fetchData.
  destruct (truthy (get "nodes" (get "attack_tree" (get "result" (get "result" (Some data))))))
    eqn:H1; [intros [= <- <-]; split; [exact H1|reflexivity]|].
  destruct (truthy (get "nodes" (get "attack_tree" (get "result" (Some data)))))
    eqn:H2; [intros [= <- <-]; split; [exact H2|reflexivity]|].
  destruct (truthy (get "nodes" (get "result" (Some data))))
    eqn:H3; [intros [= <- <-]; split; [exact H3|reflexivity]|].
  destruct service as [message|body]; [discriminate|].
  destruct (truthy (get "nodes" (get "attack_tree" (get "result" (get "result" (Some body))))))
    eqn:H4; [intros [= <- <-]; split; [exact H4|reflexivity]|discriminate].
Qed.

(** X15. Whatever envelope [fetchData] recognises, the [processedData] it
    stores is in the double-nested shape: read as an envelope again, it
    is recognised by the first case, without the service, and yields the
    same stored data and the same node list. *)
Theorem fetchData_result_is_canonical now data service pd treeNodes :
  fetchData now data service = Loaded pd treeNodes ->
  at_result_result_attack_tree_nodes (asEnvelope pd) = treeNodes /\
  forall now' service',
    fetchData now' (asEnvelope pd) service' = Loaded pd treeNodes.
Proof.
  intros Hload. apply fetchData_loaded_inv in Hload as [Ht <-].
  destruct (asEnvelope_read pd) as (Hts & Hmd & Hnodes).
  split; [exact Hnodes|]. intros now' service'.
  unfold fetchData. unfold at_result_result_attack_tree_nodes in Hnodes.
  rewrite Hnodes, Ht, Hts, Hmd. destruct pd; reflexivity.
Qed.

Lemma fetchData_result_is_canonical_witness :
  fetchData "later"
    (asEnvelope (mkResponse (Some (JStr "t")) emptyStr (Some Examples.nodeList)))
    (Rejected "offline")
  = Loaded (mkResponse (Some (JStr "t")) emptyStr (Some Examples.nodeList))
      (Some Examples.nodeList).
Proof.
  apply (fetchData_result_is_canonical "t" Examples.resultOnly (Rejected "unused")).
  reflexivity.
Defined.

(** *** Loading the report *)

Lemma truthy_not_nullish v : truthy v = true -> nullish v = false.
Proof. destruct v as [[]|]; cbn; congruence. Qed.

Lemma report_read (ts tm da mi at_ : value) :
  let body := Some (obj [("timestamp", ts);
                         ("result",
                          Some (obj [("threat_model", tm); ("dread_assessment", da);
                                     ("mitigation", mi); ("attack_tree", at_)]))]) in
  truthy (get "result" body) = true /\
  get "threat_model" (get "result" body) = tm /\
  get "dread_assessment" (get "result" body) = da /\
  get "mitigation" (get "result" body) = mi /\
  get "attack_tree" (get "result" body) = at_.
Proof. destruct ts, tm, da, mi, at_; repeat split. Qed.

Lemma section_keep (T : value -> option json) (x : value) :
  (forall d, T d = None <->
             nullish (get "result" d) = true \/
             nullish (get "result" (get "result" d)) = true) ->
  section (keep x) T
  = if transformable x then Some (if truthy (keep x) then T x else None) else None.
Proof.
  intros HT. unfold section, transformable, keep.
  destruct (truthy x && truthy (get "result" x)) eqn:E.
  - apply andb_prop in E as [Hx Hr]. rewrite Hx. cbn [negb orb].
    destruct (nullish (get "result" (get "result" x))) eqn:Hn; cbn [negb].
    + rewrite (proj2 (HT x)) by (right; exact Hn). reflexivity.
    + destruct (T x) eqn:HTx; [reflexivity|].
      apply HT in HTx as [H|H]; [|congruence].
      rewrite (truthy_not_nullish _ Hr) in H. discriminate.
  - reflexivity.
Qed.

Lemma transforms_fail (d : value) :
  (transformThreatModel d = None <->
   nullish (get "result" d) = true \/ nullish (get "result" (get "result" d)) = true) /\
  (transformDreadAssessment d = None <->
   nullish (get "result" d) = true \/ nullish (get "result" (get "result" d)) = true) /\
  (transformMitigation d = None <->
   nullish (get "result" d) = true \/ nullish (get "result" (get "result" d)) = true) /\
  (transformAttackTree d = None <->
   nullish (get "result" d) = true \/ nullish (get "result" (get "result" d)) = true).
Proof.
  unfold transformThreatModel, transformDreadAssessment, transformMitigation,
    transformAttackTree.
  destruct (nullish (get "result" d));
    [repeat split; auto|].
  destruct (nullish (get "result" (get "result" d)));
    [repeat split; auto|].
  repeat split; try discriminate; intros [H|H]; discriminate.
Qed.

Lemma transformAttackTree_nodes (d : value) (j : json) :
  transformAttackTree d = Some j ->
  get "nodes" (get "attack_tree" (get "result" (get "result" (Some j))))
  = get "nodes" (get "attack_tree" (get "result" (get "result" d))).
Proof.
  unfold transformAttackTree.
  destruct (nullish (get "result" d)); [discriminate|].
  destruct (nullish (get "result" (get "result" d))); [discriminate|].
  intros [= <-]. unfold js_or.
  destruct (get "timestamp" d), (truthy (get "markdown" (get "result" (get "result" d)))),
    (get "markdown" (get "result" (get "result" d))),
    (get "attack_tree" (get "result" (get "result" d))); reflexivity.
Qed.

Lemma keep_cases (x : value) :
  (keep x = None /\ truthy (keep x) = false) \/
  (exists j, keep x = Some j /\ truthy (keep x) = true).
Proof.
  unfold keep. destruct (truthy x && truthy (get "result" x)) eqn:E.
  - right. apply andb_prop in E as [Hx _]. destruct x as [j|]; [|discriminate Hx].
    exists j. split; [reflexivity|exact Hx].
  - left. split; reflexivity.
Qed.

Lemma getReport_eq (timestamp : string) (rs : Replies) :
  getReport timestamp rs
  = if truthy (keep (r_threat_model rs)) || truthy (keep (r_dread_assessment rs))
       || truthy (keep (r_mitigation rs)) || truthy (keep (r_attack_tree rs))
    then Resolved (obj [("timestamp", Some (JStr timestamp));
                        ("result",
                         Some (obj [("threat_model", keep (r_threat_model rs));
                                    ("dread_assessment", keep (r_dread_assessment rs));
                                    ("mitigation", keep (r_mitigation rs));
                                    ("attack_tree", keep (r_attack_tree rs))]))])
    else Rejected "No report data found".
Proof.
  unfold getReport.
  destruct (keep_cases (r_threat_model rs)) as [[-> ->]|(j1 & -> & ->)];
  destruct (keep_cases (r_dread_assessment rs)) as [[-> ->]|(j2 & -> & ->)];
  destruct (keep_cases (r_mitigation rs)) as [[-> ->]|(j3 & -> & ->)];
  destruct (keep_cases (r_attack_tree rs)) as [[-> ->]|(j4 & -> & ->)];
  reflexivity.
Qed.

(** X16. The report loads all of its four parts or none.  With the
    documents that [getReport] keeps (those with a truthy [result]), the
    state shows all four parts without error exactly when at least one
    document is kept and every kept document has a [result.result] that
    is neither [null] nor [undefined]; each part then holds the transform
    of its document, or nothing when the document is missing, and the
    node list handed to the export is the one stored at
    [result.result.attack_tree.nodes].  In every other case, a single
    kept document in another shape included, all four parts show their
    error and hold no data. *)
Theorem report_loads_all_or_nothing (timestamp : string) (rs : Replies) :
  let rd := fetchReportData (getReport timestamp rs) in
  if (truthy (keep (r_threat_model rs)) || truthy (keep (r_dread_assessment rs))
      || truthy (keep (r_mitigation rs)) || truthy (keep (r_attack_tree rs)))
     && transformable (r_threat_model rs) && transformable (r_dread_assessment rs)
     && transformable (r_mitigation rs) && transformable (r_attack_tree rs)
  then
    rd = mkReportData
           (mkSectionState
              (if truthy (keep (r_threat_model rs))
               then transformThreatModel (r_threat_model rs) else None) None)
           (mkSectionState
              (if truthy (keep (r_dread_assessment rs))
               then transformDreadAssessment (r_dread_assessment rs) else None) None)
           (mkSectionState
              (if truthy (keep (r_mitigation rs))
               then transformMitigation (r_mitigation rs) else None) None)
           (mkSectionState
              (if truthy (keep (r_attack_tree rs))
               then transformAttackTree (r_attack_tree rs) else None) None) /\
    exportedNodes rd
    = (if truthy (keep (r_attack_tree rs))
       then get "nodes" (get "attack_tree"
                           (get "result" (get "result" (r_attack_tree rs))))
       else None)
  else rd = allFailed.
Proof.
  destruct rs as [tm da mi at_]. cbv zeta.
  cbn [r_threat_model r_dread_assessment r_mitigation r_attack_tree].
  assert (Hload :
    fetchReportData
      (Resolved (obj [("timestamp", Some (JStr timestamp));
                      ("result",
                       Some (obj [("threat_model", keep tm); ("dread_assessment", keep da);
                                  ("mitigation", keep mi); ("attack_tree", keep at_)]))]))
    = if transformable tm && transformable da && transformable mi && transformable at_
      then mkReportData
             (mkSectionState (if truthy (keep tm) then transformThreatModel tm else None) None)
             (mkSectionState
                (if truthy (keep da) then transformDreadAssessment da else None) None)
             (mkSectionState (if truthy (keep mi) then transformMitigation mi else None) None)
             (mkSectionState
                (if truthy (keep at_) then transformAttackTree at_ else None) None)
      else allFailed).
  { unfold fetchReportData.
    destruct (report_read (Some (JStr timestamp)) (keep tm) (keep da) (keep mi) (keep at_))
      as (Hres & Htm & Hda & Hmi & Hat).
    cbv zeta in Hres, Htm, Hda, Hmi, Hat. cbv zeta. unfold value in *.
    rewrite Hres, Htm, Hda, Hmi, Hat. unfold obj at 1. cbn [truthy andb].
    rewrite (section_keep transformThreatModel tm) by (intros d; apply transforms_fail).
    rewrite (section_keep transformDreadAssessment da) by (intros d; apply transforms_fail).
    rewrite (section_keep transformMitigation mi) by (intros d; apply transforms_fail).
    rewrite (section_keep transformAttackTree at_) by (intros d; apply transforms_fail).
    destruct (transformable tm), (transformable da), (transformable mi),
      (transformable at_); reflexivity. }
  assert (Hnodes :
    transformable at_ = true ->
    get "nodes" (get "attack_tree" (get "result" (get "result"
      (if truthy (keep at_) then transformAttackTree at_ else None))))
    = (if truthy (keep at_)
       then get "nodes" (get "attack_tree" (get "result" (get "result" at_)))
       else None)).
  { intros Hat. destruct (truthy (keep at_)) eqn:Hk; [|reflexivity].
    destruct (transformAttackTree at_) as [j|] eqn:Hj.
    - apply (transformAttackTree_nodes at_ j Hj).
    - exfalso. apply transforms_fail in Hj. unfold transformable in Hat.
      rewrite Hk in Hat. cbn [negb orb] in Hat.
      unfold keep in Hk. destruct (truthy at_ && truthy (get "result" at_)) eqn:E;
        [|discriminate Hk].
      apply andb_prop in E as [_ Hr]. apply truthy_not_nullish in Hr.
      destruct Hj as [H|H]; [congruence|]. rewrite H in Hat. discriminate. }
  rewrite getReport_eq. cbn [r_threat_model r_dread_assessment r_mitigation r_attack_tree].
  destruct (truthy (keep tm) || truthy (keep da) || truthy (keep mi) || truthy (keep at_));
    [|reflexivity].
  rewrite Hload. cbn [andb].
  destruct (transformable tm); [|reflexivity].
  destruct (transformable da); [|reflexivity].
  destruct (transformable mi); [|reflexivity].
  destruct (transformable at_); [|reflexivity].
  cbn [andb]. split; [reflexivity|].
  unfold exportedNodes. cbn [attack_tree data]. apply Hnodes. reflexivity.
Qed.

Lemma report_loads_all_or_nothing_example :
  let stored := Some (JObj [("result", JObj [("result",
                   JObj [("attack_tree", JObj [("nodes", Examples.nodeList)])])])]) in
  let flat := Some (JObj [("result", JObj [("markdown", JStr "m")])]) in
  exportedNodes (fetchReportData (getReport "t" (mkReplies None None None stored)))
  = Some Examples.nodeList /\
  fetchReportData (getReport "t" (mkReplies None None flat stored)) = allFailed.
Proof. split; reflexivity. Qed.

End ReportFetchClaims.
